(** * Greenscore API: the scoring function and the purchase ledger

    A shallow embedding of [server/main.py]: the pure scoring function
    [calculate_green_score], the three SQLite tables created by [init_db],
    and the request handlers that read and write them through a
    [sqlite3] connection.

    Numbers.  Costs, emissions, scores and impacts are Python [float]s
    and SQLite [REAL]s: binary64.  They are embedded as the binary64
    floats of the prover, every operation rounded as the processor rounds
    it.  [spec_score] is the formula of the specification evaluated on
    exact rationals; it is what the code is compared with, not an
    embedding of the code.  A [REAL NOT NULL] column holds no NaN: SQLite
    takes a NaN for NULL and refuses it.

    Text.  A [string] is the UTF-8 text of a Python [str]; identifiers
    are the textual form [str(uuid)], timestamps the ISO-8601 text the
    source stores.  The regular-expression engine of the request model
    is outside the source: what it accepts for the pattern of
    [User.phone_number] is a parameter ([PatternEngine]).

    Environment.  [uuid4()] and [datetime.utcnow()] read the outside
    world; the value they return is an argument of the handler that
    calls them.  Requests are served one at a time.  The conversion of
    a handler's result into its response model is not embedded. *)

From Stdlib Require Import ZArith QArith Qround Qminmax.
From Stdlib Require Import String Ascii List Bool Lia Lqa.
From Stdlib Require Import Relations.
From Stdlib Require Import PrimFloat SpecFloat FloatOps FloatAxioms Uint63.
Import ListNotations.

Local Open Scope Z_scope.
Local Open Scope string_scope.

(* ================================================================== *)
(** * Part I: the program                                              *)
(* ================================================================== *)

(** ** The formula of the specification *)

(** The score as the specification words it: the real-valued expression,
    then truncation towards zero, here stated with floor and ceiling on
    exact rationals. *)

Definition truncate_toward_zero (x : Q) : Z :=
  if Qlt_le_dec x 0 then Qceiling x else Qfloor x.

Definition spec_score (cost carbon_emission : Q) : Z :=
  truncate_toward_zero
    (100 - Qmax 0 ((50 - cost) / 50) * 20
         - Qmax 0 ((20 - carbon_emission) / 20) * 80)%Q.

(** ** [calculate_green_score] (lines 53-57) *)

Module Binary64.

(** [max(a, b)]: [b > a] is false when either is not a number. *)
Definition max (a b : float) : float :=
  if PrimFloat.ltb a b then b else a.

(** [int(x)]: the integral part of a finite float; [int] raises on an
    infinity ([OverflowError]) and on a NaN ([ValueError]). *)
Definition int (x : float) : option Z :=
  match Prim2SF x with
  | S754_zero _ => Some 0
  | S754_finite s m e =>
      let magnitude :=
        match e with
        | Zneg p => Z.shiftr (Zpos m) (Zpos p)
        | _ => Z.shiftl (Zpos m) e
        end in
      Some (if s then - magnitude else magnitude)
  | S754_infinity _ | S754_nan => None
  end.

Definition calculate_green_score (cost carbon_emission : float)
  : option Z :=
  let base_score := 100%float in
  let cost_factor := (max 0 ((50 - cost) / 50) * 20)%float in
  let emission_factor :=
    (max 0 ((20 - carbon_emission) / 20) * 80)%float in
  int (base_score - cost_factor - emission_factor)%float.


(** The float [k / 8], exact for the [k] used below. *)
Definition eighths (k : nat) : float :=
  (PrimFloat.of_uint63 (Uint63.of_Z (Z.of_nat k)) / 8)%float.

End Binary64.

Definition agree (a : option Z) (b : Z) : bool :=
  match a with
  | Some z => Z.eqb z b
  | None => false
  end.

(** The code gives the score of the exact formula at every pair of
    eighths [(i / 8, j / 8)] with [i < n] and [j < m]. *)
Definition agrees_on_eighths (n m : nat) : bool :=
  forallb
    (fun i =>
       forallb
         (fun j =>
            agree (Binary64.calculate_green_score
                     (Binary64.eighths i) (Binary64.eighths j))
                  (spec_score (Z.of_nat i # 8) (Z.of_nat j # 8)))
         (seq 0 m))
    (seq 0 n).

(** ** Exceptions *)

Inductive exn : Type :=
| HTTPException (status_code : Z) (detail : string)
    (* [fastapi.HTTPException] *)
| RequestValidationError (field : string)
    (* raised by the request model before the handler runs; status 422 *)
| OperationalError (msg : string)   (* [sqlite3.OperationalError] *)
| IntegrityError (msg : string)     (* [sqlite3.IntegrityError] *)
| NameError (name : string).        (* an unbound global name *)

(** ** The tables of [init_db] (lines 14-50) *)

Definition UUID : Type := string.

(** [str(uuid)] on the textual form. *)
Definition str (u : UUID) : string := u.

(** A row of [users]: columns 0 to 3. *)
Record user_row : Type := mk_user_row {
  u_id : string;
  u_phone_number : string;
  u_name : string;
  u_green_score : float
}.

(** A row of [products]: columns 0 to 4. *)
Record product_row : Type := mk_product_row {
  p_id : string;
  p_name : string;
  p_cost : float;
  p_carbon_emission : float;
  p_sustainability_score : float
}.

(** A row of [purchases]: columns 0 to 4; [b_id] is the rowid. *)
Record purchase_row : Type := mk_purchase_row {
  b_id : Z;
  b_user_id : string;
  b_product_id : string;
  b_timestamp : string;
  b_impact_on_green_score : float
}.

(** The database file.  Rows are kept in insertion order.
    [purchases_seq] is the entry of [sqlite_sequence] that an
    [AUTOINCREMENT] key keeps for its table: the largest rowid ever
    handed out. *)
Record database : Type := mk_database {
  users : list user_row;
  products : list product_row;
  purchases : list purchase_row;
  purchases_seq : Z
}.

(** What [init_db] leaves when the file did not exist. *)
Definition init_db : database :=
  {| users := []; products := []; purchases := []; purchases_seq := 0 |}.

(** *** Values and column names *)

Inductive sqlval : Type :=
| Text (s : string)
| Real (x : float)
| Integer (z : Z).

Definition sqlval_eqb (a b : sqlval) : bool :=
  match a, b with
  | Text s, Text t => String.eqb s t
  | Real x, Real y => (x =? y)%float
  | Integer m, Integer n => Z.eqb m n
  | Integer m, Real x | Real x, Integer m =>
      (SF2Prim (binary_normalize prec emax m 0 false) =? x)%float
  | _, _ => false
  end.

(** Column names are resolved against the [CREATE TABLE] statements. *)

Definition users_column (c : string) : option (user_row -> sqlval) :=
  if c =? "id" then Some (fun r => Text (u_id r))
  else if c =? "phone_number" then Some (fun r => Text (u_phone_number r))
  else if c =? "name" then Some (fun r => Text (u_name r))
  else if c =? "green_score" then Some (fun r => Real (u_green_score r))
  else None.

Definition products_column (c : string) : option (product_row -> sqlval) :=
  if c =? "id" then Some (fun r => Text (p_id r))
  else if c =? "name" then Some (fun r => Text (p_name r))
  else if c =? "cost" then Some (fun r => Real (p_cost r))
  else if c =? "carbon_emission"
       then Some (fun r => Real (p_carbon_emission r))
  else if c =? "sustainability_score"
       then Some (fun r => Real (p_sustainability_score r))
  else None.

(** ** A [sqlite3] connection

    A connection sees its own uncommitted writes ([pending]); the file
    ([committed]) changes at [commit] only.  Closing a connection, or
    dropping it when an exception leaves the handler, discards what was
    not committed. *)

Record connection : Type := mk_connection {
  committed : database;
  pending : database
}.

Definition sql (A : Type) : Type := connection -> connection * (exn + A).

Definition ret {A} (a : A) : sql A := fun c => (c, inr a).

Definition raise {A} (e : exn) : sql A := fun c => (c, inl e).

Definition bind {A B} (m : sql A) (k : A -> sql B) : sql B :=
  fun c =>
    match m c with
    | (c', inr a) => k a c'
    | (c', inl e) => (c', inl e)
    end.

Notation "x <- m ;; k" := (bind m (fun x => k))
  (at level 61, m at next level, right associativity).
Notation "m ;; k" := (bind m (fun _ => k))
  (at level 61, right associativity).

Definition connect (db : database) : connection :=
  {| committed := db; pending := db |}.

Definition commit : sql unit :=
  fun c => ({| committed := pending c; pending := pending c |}, inr tt).

Definition close : sql unit :=
  fun c => ({| committed := committed c; pending := committed c |}, inr tt).

(** A handler opens its connection on the file and leaves the file as
    the connection committed it. *)
Definition with_connection {A} (m : sql A) (db : database)
  : database * (exn + A) :=
  let (c, r) := m (connect db) in (committed c, r).

(** *** Statements *)

(** [SELECT * FROM <table> WHERE <column> = ?] *)
Definition select_where {R} (table : database -> list R)
    (columns : string -> option (R -> sqlval))
    (column : string) (v : sqlval) : sql (list R) :=
  match columns column with
  | None => raise (OperationalError ("no such column: " ++ column))
  | Some proj =>
      fun c => (c, inr (filter (fun r => sqlval_eqb (proj r) v)
                               (table (pending c))))
  end.

(** [cursor.fetchone()] *)
Definition fetchone {R} (rows : list R) : option R := hd_error rows.

Definition set_green_score (score : float) (u : user_row) : user_row :=
  {| u_id := u_id u; u_phone_number := u_phone_number u;
     u_name := u_name u; u_green_score := score |}.

(** [UPDATE users SET green_score = ? WHERE id = ?]: [green_score] is
    [NOT NULL], so a NaN is refused as soon as a row is to take it. *)
Definition update_green_score (score : float) (id : string) : sql unit :=
  fun c =>
    let db := pending c in
    if is_nan score && existsb (fun u => u_id u =? id) (users db)
    then (c, inl (IntegrityError
                    "NOT NULL constraint failed: users.green_score"))
    else
    ({| committed := committed c;
        pending :=
          {| users := map (fun u => if u_id u =? id
                                    then set_green_score score u else u)
                          (users db);
             products := products db;
             purchases := purchases db;
             purchases_seq := purchases_seq db |} |}, inr tt).

(** [INSERT INTO users (id, phone_number, name, green_score)]:
    [green_score] is [NOT NULL], [id] is the primary key and
    [phone_number] is [UNIQUE]. *)
Definition insert_user (row : user_row) : sql unit :=
  fun c =>
    let db := pending c in
    if is_nan (u_green_score row)
    then (c, inl (IntegrityError
                    "NOT NULL constraint failed: users.green_score"))
    else if existsb (fun u => u_id u =? u_id row) (users db)
    then (c, inl (IntegrityError "UNIQUE constraint failed: users.id"))
    else if existsb (fun u => u_phone_number u =? u_phone_number row)
                    (users db)
    then (c, inl (IntegrityError
                    "UNIQUE constraint failed: users.phone_number"))
    else
      ({| committed := committed c;
          pending :=
            {| users := users db ++ [row];
               products := products db;
               purchases := purchases db;
               purchases_seq := purchases_seq db |} |}, inr tt).

(** The largest rowid SQLite can hand out. *)
Definition max_rowid : Z := 9223372036854775807.

Definition largest_rowid (rows : list purchase_row) : Z :=
  fold_right (fun r m => Z.max (b_id r) m) 0 rows.

(** [INSERT INTO purchases (user_id, product_id, timestamp,
    impact_on_green_score)]: the [AUTOINCREMENT] key is one more than
    the largest rowid the table ever held; the statement fails when that
    one was the largest possible, and when the impact, a [NOT NULL]
    column, is a NaN.  The result is [cursor.lastrowid]. *)
Definition insert_purchase (user_id product_id timestamp : string)
    (impact : float) : sql Z :=
  fun c =>
    let db := pending c in
    let last := Z.max (purchases_seq db) (largest_rowid (purchases db)) in
    if (max_rowid <=? last)%Z
    then (c, inl (OperationalError "database or disk is full"))
    else if is_nan impact
    then (c, inl (IntegrityError
                    "NOT NULL constraint failed: purchases.impact_on_green_score"))
    else
      let rowid := last + 1 in
      ({| committed := committed c;
          pending :=
            {| users := users db;
               products := products db;
               purchases :=
                 purchases db ++
                 [ {| b_id := rowid; b_user_id := user_id;
                      b_product_id := product_id;
                      b_timestamp := timestamp;
                      b_impact_on_green_score := impact |} ];
               purchases_seq := rowid |} |}, inr rowid).

(** ** Request and response models (lines 60-104) *)

Record User : Type := mk_User {
  phone_number : string;
  name : string
}.

Record UserResponse : Type := mk_UserResponse {
  ur_id : UUID;
  ur_phone_number : string;
  ur_name : string;
  ur_green_score : float
}.

Record GreenScoreResponse : Type := mk_GreenScoreResponse {
  gs_user_id : UUID;
  gs_green_score : float
}.

Record Purchase : Type := mk_Purchase {
  user_id : UUID;
  product_id : UUID
}.

Record PurchaseResponse : Type := mk_PurchaseResponse {
  pr_id : Z;
  pr_user_id : UUID;
  pr_product_id : UUID;
  pr_timestamp : string;
  pr_impact_on_green_score : float
}.

Record UserPurchaseResponse : Type := mk_UserPurchaseResponse {
  up_id : Z;
  up_product_id : UUID;
  up_product_name : string;
  up_timestamp : string;
  up_impact_on_green_score : float
}.

(** An ASCII digit, [0] to [9]. *)
Definition is_ascii_digit (c : ascii) : bool :=
  let n := N_of_ascii c in ((48 <=? n) && (n <=? 57))%N.

(** Exactly ten ASCII digits. *)
Definition ten_ascii_digits (s : string) : bool :=
  (String.length s =? 10)%nat
  && forallb is_ascii_digit (list_ascii_of_string s).

(** The engine that matches [pattern=r'^\d{10}$'] against
    [User.phone_number].  Which characters [\d] covers is the engine's
    (a Unicode-aware one takes the decimal digits of every script); every
    engine takes ten ASCII digits, and none takes a text of fewer than
    ten bytes, a digit being at least one byte. *)
Class PatternEngine : Type := mk_PatternEngine {
  phone_number_pattern : string -> bool;
  phone_number_pattern_ascii :
    forall s, ten_ascii_digits s = true -> phone_number_pattern s = true;
  phone_number_pattern_length :
    forall s, phone_number_pattern s = true -> (10 <= String.length s)%nat
}.

(** An engine whose [\d] is the ASCII digits only; the concrete
    instances below run on it. *)
Definition ascii_engine : PatternEngine :=
  {| phone_number_pattern := ten_ascii_digits;
     phone_number_pattern_ascii := fun s H => H;
     phone_number_pattern_length := fun s H =>
       Nat.eq_le_incl _ _
         (eq_sym (proj1 (Nat.eqb_eq _ _) (proj1 (andb_prop _ _ H)))) |}.

(** Validation of a request body against [User]: [phone_number] carries
    the pattern, [name] is a bare [str]. *)
Definition validate_User {E : PatternEngine} (body : User) : exn + User :=
  if phone_number_pattern (phone_number body)
  then inr body
  else inl (RequestValidationError "phone_number").

(** ** Handlers *)

(** [register_user] (lines 113-138); [fresh] is the value of [uuid4()]. *)
Definition register_user (user : User) (fresh : UUID) : sql UserResponse :=
  let user_id := fresh in
  rows <- select_where users users_column "phone_number"
                       (Text (phone_number user)) ;;
  match fetchone rows with
  | Some _ =>
      close ;;
      raise (HTTPException 400 "Phone number already registered")
  | None =>
      let new_user :=
        {| ur_id := str user_id; ur_phone_number := phone_number user;
           ur_name := name user; ur_green_score := 0%float |} in
      insert_user {| u_id := ur_id new_user;
                     u_phone_number := ur_phone_number new_user;
                     u_name := ur_name new_user;
                     u_green_score := ur_green_score new_user |} ;;
      commit ;;
      close ;;
      ret new_user
  end.

(** [get_user] (lines 142-151) *)
Definition get_user (user_id : UUID) : sql UserResponse :=
  rows <- select_where users users_column "id" (Text (str user_id)) ;;
  let row := fetchone rows in
  close ;;
  match row with
  | None => raise (HTTPException 404 "User not found")
  | Some row =>
      ret {| ur_id := u_id row; ur_phone_number := u_phone_number row;
             ur_name := u_name row; ur_green_score := u_green_score row |}
  end.

(** [get_green_score] (lines 155-163) *)
Definition get_green_score (user_id : UUID) : sql GreenScoreResponse :=
  rows <- select_where users users_column "id" (Text (str user_id)) ;;
  let row := fetchone rows in
  close ;;
  match row with
  | None => raise (HTTPException 404 "User not found")
  | Some row =>
      ret {| gs_user_id := u_id row; gs_green_score := u_green_score row |}
  end.

(** The writes of [record_purchase] (lines 184-200), for the rows [user]
    and [product] that its two lookups fetched; [now] is
    [datetime.utcnow().isoformat()]. *)
Definition record_purchase_writes (purchase : Purchase)
    (user : user_row) (product : product_row) (now : string)
  : sql PurchaseResponse :=
  let impact_on_green_score := p_sustainability_score product in
  let new_green_score :=
    (u_green_score user + impact_on_green_score)%float in
  update_green_score new_green_score (str (user_id purchase)) ;;
  let timestamp := now in
  purchase_id <- insert_purchase (str (user_id purchase))
                   (str (product_id purchase)) timestamp
                   impact_on_green_score ;;
  commit ;;
  close ;;
  ret {| pr_id := purchase_id; pr_user_id := user_id purchase;
         pr_product_id := product_id purchase; pr_timestamp := timestamp;
         pr_impact_on_green_score := impact_on_green_score |}.

(** [record_purchase] (lines 167-200).  The product lookup of line 179
    names the column [product_id]. *)
Definition record_purchase (purchase : Purchase) (now : string)
  : sql PurchaseResponse :=
  rows <- select_where users users_column "id"
                       (Text (str (user_id purchase))) ;;
  match fetchone rows with
  | None =>
      close ;;
      raise (HTTPException 404 "User not found")
  | Some user =>
      rows <- select_where products products_column "product_id"
                           (Text (str (product_id purchase))) ;;
      match fetchone rows with
      | None =>
          close ;;
          raise (HTTPException 404 "Product not found")
      | Some product => record_purchase_writes purchase user product now
      end
  end.

(** The names bound at module level when a handler runs: the imports
    (lines 1-7) and the top-level assignments, functions and classes. *)
Definition module_globals : list string :=
  [ "fastapi"; "uvicorn"; "BaseModel"; "Field"; "List"; "UUID"; "uuid4";
    "datetime"; "sqlite3"; "app"; "DATABASE"; "init_db";
    "calculate_green_score"; "User"; "UserResponse"; "GreenScoreResponse";
    "Product"; "ProductResponse"; "Purchase"; "PurchaseResponse";
    "UserPurchaseResponse"; "on_startup"; "register_user"; "get_user";
    "get_green_score"; "record_purchase"; "get_user_purchases" ].

Definition name_defined (n : string) : bool :=
  existsb (String.eqb n) module_globals.

(** Evaluation of a global name. *)
Definition global {A} (n : string) (k : sql A) : sql A :=
  if name_defined n then k else raise (NameError n).

(** The join of lines 216-221: purchases of the user in rowid order, each
    with the products whose [id] it references. *)
Definition purchases_with_product_name (user_id : string) (db : database)
  : list UserPurchaseResponse :=
  flat_map
    (fun p =>
       map (fun pr =>
              {| up_id := b_id p; up_product_id := b_product_id p;
                 up_product_name := p_name pr;
                 up_timestamp := b_timestamp p;
                 up_impact_on_green_score := b_impact_on_green_score p |})
           (filter (fun pr => b_product_id p =? p_id pr) (products db)))
    (filter (fun p => b_user_id p =? user_id) (purchases db)).

(** [get_user_purchases] (lines 204-238).  Its first statement calls
    [get_db_connection]; its [raise] names a bare [HTTPException]. *)
Definition get_user_purchases (user_id : UUID)
  : sql (list UserPurchaseResponse) :=
  global "get_db_connection"
    (rows <- select_where users users_column "id" (Text (str user_id)) ;;
     match fetchone rows with
     | None =>
         global "HTTPException"
           (close ;; raise (HTTPException 404 "User not found"))
     | Some _ =>
         fun c =>
           (close ;; ret (purchases_with_product_name (str user_id)
                                                      (pending c))) c
     end).

(** ** The service: one request at a time *)

Inductive request : Type :=
| POST_users (body : User) (fresh : UUID)
| GET_user (user_id : UUID)
| GET_green_score (user_id : UUID)
| POST_purchases (body : Purchase) (now : string)
| GET_user_purchases (user_id : UUID).

Inductive response : Type :=
| R_User (r : UserResponse)
| R_GreenScore (r : GreenScoreResponse)
| R_Purchase (r : PurchaseResponse)
| R_UserPurchases (r : list UserPurchaseResponse).

Definition tagged {A} (tag : A -> response) (out : database * (exn + A))
  : database * (exn + response) :=
  match out with
  | (db, inr a) => (db, inr (tag a))
  | (db, inl e) => (db, inl e)
  end.

(** [POST /users]: the body is validated, then the handler runs. *)
Definition post_users {E : PatternEngine}
    (body : User) (fresh : UUID) (db : database)
  : database * (exn + UserResponse) :=
  match validate_User body with
  | inl e => (db, inl e)
  | inr user => with_connection (register_user user fresh) db
  end.

Definition serve {E : PatternEngine} (r : request) (db : database)
  : database * (exn + response) :=
  match r with
  | POST_users body fresh => tagged R_User (post_users body fresh db)
  | GET_user id => tagged R_User (with_connection (get_user id) db)
  | GET_green_score id =>
      tagged R_GreenScore (with_connection (get_green_score id) db)
  | POST_purchases body now =>
      tagged R_Purchase (with_connection (record_purchase body now) db)
  | GET_user_purchases id =>
      tagged R_UserPurchases (with_connection (get_user_purchases id) db)
  end.

(** One transition of the store: a request served, or the writes of
    lines 184-200 carried out for a user row and a product row of the
    store. *)
Inductive step {E : PatternEngine} (db : database) : database -> Prop :=
| step_serve (r : request) :
    step db (fst (serve r db))
| step_writes (purchase : Purchase) (user : user_row)
    (product : product_row) (now : string) :
    In user (users db) ->
    u_id user = str (user_id purchase) ->
    step db (fst (with_connection
                    (record_purchase_writes purchase user product now) db)).

(** ** The ledger invariant *)

(** The sum of [impact_on_green_score] over the purchases that reference
    a user, as the code accumulates it: from 0.0, one binary64 addition
    per purchase, in the order of recording. *)
Definition impact_sum (uid : string) (rows : list purchase_row) : float :=
  fold_left (fun acc p => (acc + b_impact_on_green_score p)%float)
    (filter (fun p => b_user_id p =? uid) rows) 0%float.

Definition scores_match (db : database) : Prop :=
  forall u, In u (users db) ->
    u_green_score u = impact_sum (u_id u) (purchases db).




(** What the schema and the handlers keep along: the primary key of
    [users], and the foreign key of [purchases] into [users]. *)
Definition user_ids_unique (db : database) : Prop :=
  NoDup (map u_id (users db)).

Definition purchases_reference_users (db : database) : Prop :=
  forall p, In p (purchases db) -> In (b_user_id p) (map u_id (users db)).

Record consistent (db : database) : Prop := mk_consistent {
  cons_scores : scores_match db;
  cons_unique : user_ids_unique db;
  cons_refs : purchases_reference_users db
}.

(** ** Vocabulary of the statements *)

(** The identifier resolves to a row of [users] / of [products]. *)
Definition resolves_user (id : UUID) (db : database) : bool :=
  existsb (fun u => u_id u =? str id) (users db).

Definition resolves_product (id : UUID) (db : database) : bool :=
  existsb (fun p => p_id p =? str id) (products db).

Definition phone_registered (phone : string) (db : database) : bool :=
  existsb (fun u => u_phone_number u =? phone) (users db).

(** The row that registration inserts. *)
Definition new_user_row (user : User) (fresh : UUID) : user_row :=
  {| u_id := str fresh; u_phone_number := phone_number user;
     u_name := name user; u_green_score := 0%float |}.

Definition with_users (us : list user_row) (db : database) : database :=
  {| users := us; products := products db; purchases := purchases db;
     purchases_seq := purchases_seq db |}.

(** The [users] table after the [UPDATE] of line 188. *)
Definition credited (uid : string) (score : float) (us : list user_row)
  : list user_row :=
  map (fun u => if u_id u =? uid then set_green_score score u else u) us.

(** The row that the [INSERT] of lines 191-194 appends. *)
Definition new_purchase_row (rowid : Z) (purchase : Purchase)
    (product : product_row) (now : string) : purchase_row :=
  {| b_id := rowid; b_user_id := str (user_id purchase);
     b_product_id := str (product_id purchase); b_timestamp := now;
     b_impact_on_green_score := p_sustainability_score product |}.

(** The largest rowid [purchases] ever held. *)
Definition high_water (db : database) : Z :=
  Z.max (purchases_seq db) (largest_rowid (purchases db)).

(** The score that line 185 computes. *)
Definition new_green_score (user : user_row) (product : product_row)
  : float :=
  (u_green_score user + p_sustainability_score product)%float.

(** When the writes of lines 184-200 go through: the new score is a
    number (or no row is there to take it), a rowid is left, and the
    impact is a number. *)
Definition writes_commit (purchase : Purchase) (user : user_row)
    (product : product_row) (db : database) : bool :=
  negb (is_nan (new_green_score user product)
        && resolves_user (user_id purchase) db)
  && negb (max_rowid <=? high_water db)%Z
  && negb (is_nan (p_sustainability_score product)).

(** The store they leave, and the record they return. *)
Definition recorded (purchase : Purchase) (user : user_row)
    (product : product_row) (now : string) (db : database) : database :=
  {| users :=
       credited (str (user_id purchase)) (new_green_score user product)
                (users db);
     products := products db;
     purchases :=
       purchases db ++
       [new_purchase_row (high_water db + 1) purchase product now];
     purchases_seq := high_water db + 1 |}.

Definition receipt (purchase : Purchase) (product : product_row)
    (now : string) (db : database) : PurchaseResponse :=
  {| pr_id := high_water db + 1; pr_user_id := user_id purchase;
     pr_product_id := product_id purchase; pr_timestamp := now;
     pr_impact_on_green_score := p_sustainability_score product |}.

(** ** A small store, for the concrete instances *)

Definition asha : UUID := "0f8fad5b-d9cb-469f-a165-70867728950e".
Definition ben : UUID := "7c9e6679-7425-40de-944b-e07fc1f90ae7".
Definition carla : UUID := "3f2504e0-4f89-41d3-9a0c-0305e82c3301".
Definition lamp : UUID := "16fd2706-8baf-433b-82eb-8c7fada847da".
Definition kettle : UUID := "886313e1-3b8a-5372-9b90-0c9aee199e5d".
Definition noon : string := "2024-05-01T12:00:00.000000".

Definition lamp_row : product_row :=
  {| p_id := lamp; p_name := "Lamp"; p_cost := 10%float;
     p_carbon_emission := 5%float; p_sustainability_score := 24%float |}.

Definition asha_row : user_row :=
  {| u_id := asha; u_phone_number := "5550100001"; u_name := "Asha";
     u_green_score := 24%float |}.

Definition ben_row : user_row :=
  {| u_id := ben; u_phone_number := "5550100002"; u_name := "Ben";
     u_green_score := 0%float |}.

Definition sample_db : database :=
  {| users := [asha_row; ben_row];
     products := [lamp_row];
     purchases :=
       [ {| b_id := 1; b_user_id := asha; b_product_id := lamp;
            b_timestamp := "2024-04-30T09:30:00.000000";
            b_impact_on_green_score := 24%float |} ];
     purchases_seq := 1 |}.

(** ** Start-up (lines 14-50 and 107-109) *)

(** The database file before start-up: each table is there or not.  The
    [AUTOINCREMENT] counter of [purchases] lives with its table. *)
Record db_file : Type := mk_db_file {
  file_users : option (list user_row);
  file_products : option (list product_row);
  file_purchases : option (list purchase_row * Z)
}.

(** [CREATE TABLE IF NOT EXISTS]: a table that is there is left alone. *)
Definition create_table_if_not_exists {T} (empty : T) (table : option T)
  : option T :=
  match table with
  | Some t => Some t
  | None => Some empty
  end.

(** [on_startup] calls [init_db]: the three statements, then
    [commit]. *)
Definition on_startup (f : db_file) : db_file :=
  {| file_users := create_table_if_not_exists [] (file_users f);
     file_products := create_table_if_not_exists [] (file_products f);
     file_purchases := create_table_if_not_exists ([], 0) (file_purchases f) |}.

(** A file that [sqlite3.connect] has just created. *)
Definition new_file : db_file :=
  {| file_users := None; file_products := None; file_purchases := None |}.

(** The store the handlers work on, when all three tables are there. *)
Definition store (f : db_file) : option database :=
  match file_users f, file_products f, file_purchases f with
  | Some us, Some ps, Some (bs, seq) =>
      Some {| users := us; products := ps; purchases := bs;
              purchases_seq := seq |}
  | _, _, _ => None
  end.

(** ** More vocabulary *)

(** What registration fixes of a user, and nothing later changes. *)
Definition user_identity (u : user_row) : string * string * string :=
  (u_id u, u_phone_number u, u_name u).

(** Every stored phone number is well formed and belongs to one user. *)
Definition phones_wellformed {E : PatternEngine} (db : database) : Prop :=
  NoDup (map u_phone_number (users db))
  /\ forall u, In u (users db) ->
       phone_number_pattern (u_phone_number u) = true.

Definition purchase_ids_unique (db : database) : Prop :=
  NoDup (map b_id (purchases db)).

(** The rowids of [purchases] are 1, 2, ..., in table order, and the
    counter stands at the last one. *)
Definition purchase_ids_dense (db : database) : Prop :=
  map b_id (purchases db)
  = map Z.of_nat (seq 1 (List.length (purchases db)))
  /\ purchases_seq db = Z.of_nat (List.length (purchases db)).

(** A store whose rowids are used up. *)
Definition full_db : database :=
  {| users := [asha_row; ben_row];
     products := [lamp_row];
     purchases := [];
     purchases_seq := max_rowid |}.

(** ** Floats: signs and concrete values *)

(** Zero, negative, or not a number: what [0 < x] is false of. *)
Definition not_positive (x : spec_float) : Prop :=
  match x with
  | S754_zero _ | S754_nan => True
  | S754_infinity s | S754_finite s _ _ => s = true
  end.

(** The floats that Python writes 0.1, 0.2 and 4.24. *)
Definition tenth : float := 0x1.999999999999ap-4%float.
Definition four_and_24_hundredths : float := 0x1.0f5c28f5c28f6p+2%float.







(** A store where a score would leave the numbers: +infinity, and a
    product whose score is -infinity. *)
Definition abyss : UUID := "6ba7b810-9dad-11d1-80b4-00c04fd430c8".

Definition abyss_row : product_row :=
  {| p_id := abyss; p_name := "Abyss"; p_cost := 0%float;
     p_carbon_emission := 0%float;
     p_sustainability_score := neg_infinity |}.

Definition asha_infinite_row : user_row :=
  {| u_id := asha; u_phone_number := "5550100001"; u_name := "Asha";
     u_green_score := infinity |}.

Definition infinite_db : database :=
  {| users := [asha_infinite_row];
     products := [abyss_row];
     purchases := [];
     purchases_seq := 0 |}.

(** ** Round to nearest, ties to even *)

(** The record that places [N / D] between two consecutive integers:
    the integer below, whether the middle is reached, and whether
    anything is left beside the integer and the middle. *)
Definition located (N D : Z) : shr_record :=
  {| shr_m := N / D;
     shr_r := (D <=? 2 * (N mod D))%Z;
     shr_s := (negb (N mod D =? 0) && negb (2 * (N mod D) =? D))%Z |}.

(** The integer nearest to [N / D], the even one of two. *)
Definition round_half_even (N D : Z) : Z :=
  match (2 * (N mod D) ?= D)%Z with
  | Lt => N / D
  | Eq => if Z.even (N / D) then N / D else N / D + 1
  | Gt => N / D + 1
  end.

(** The place of a float in the order of the floats: binary64 values
    are ordered as their bit patterns are. *)
Definition rank_infinity : Z :=
  (emax - prec + 1 - emin) * 2 ^ (prec - 1) + 2 ^ (prec - 1).

Definition rank (x : spec_float) : Z :=
  match x with
  | S754_zero _ | S754_nan => 0
  | S754_infinity s => if s then - rank_infinity else rank_infinity
  | S754_finite s m e =>
      let k := (e - emin) * 2 ^ (prec - 1) + Z.pos m in
      if s then - k else k
  end.

(** The rank of [N / D * 2 ^ e] rounded to nearest, before overflow is
    looked at. *)
Definition raw_rank (N D e : Z) : Z :=
  let E := fexp prec emax (Zdigits2 (N / D) + e) in
  (E - emin) * 2 ^ (prec - 1) + round_half_even N (D * 2 ^ (E - e)).

(** The mantissa of a finite float, with its sign, and its exponent: the
    float is [sf_num x * 2 ^ sf_exp x].  A zero has mantissa 0. *)
Definition sf_num (x : spec_float) : Z :=
  match x with
  | S754_finite s m _ => cond_Zopp s (Z.pos m)
  | _ => 0
  end.

Definition sf_exp (x : spec_float) : Z :=
  match x with
  | S754_finite _ _ e => e
  | _ => emin
  end.

Definition sf_finite (x : spec_float) : bool :=
  match x with
  | S754_zero _ | S754_finite _ _ _ => true
  | S754_infinity _ | S754_nan => false
  end.

(** The numerator of a finite float over [2 ^ - e0]. *)
Definition aligned (x : spec_float) (e0 : Z) : Z :=
  sf_num x * 2 ^ (sf_exp x - e0).

(** The rank of [z * 2 ^ e] rounded to a float. *)
Definition round_rank (z e : Z) : Z :=
  rank (binary_normalize prec emax z e false).

(** One penalty term of [calculate_green_score]:
    [max(0, (a - x) / a) * w]. *)
Definition penalty (a w x : float) : float :=
  (Binary64.max 0 ((a - x) / a) * w)%float.

(** Two calls compared: either both raise, or both return and the
    first result is at most the second. *)
Definition result_le (r1 r2 : option Z) : Prop :=
  match r1, r2 with
  | Some z1, Some z2 => z1 <= z2
  | None, None => True
  | _, _ => False
  end.

(** The largest finite float. *)
Definition max_float : float := 0x1.fffffffffffffp+1023%float.

(* ================================================================== *)
(** * Part II: properties                                              *)
(* ================================================================== *)

(** ** The scoring function *)

Example binary64_example_10_5 :
  Binary64.calculate_green_score 10 5 = Some 24.
Proof. vm_compute. reflexivity. Qed.

Example binary64_example_0_0 :
  Binary64.calculate_green_score 0 0 = Some 0.
Proof. vm_compute. reflexivity. Qed.

Example binary64_example_60_30 :
  Binary64.calculate_green_score 60 30 = Some 100.
Proof. vm_compute. reflexivity. Qed.

Example binary64_example_negative_cost :
  Binary64.calculate_green_score (-50) 0 = Some (-20).
Proof. vm_compute. reflexivity. Qed.

Example binary64_example_infinite_cost :
  Binary64.calculate_green_score infinity 0 = Some 20.
Proof. vm_compute. reflexivity. Qed.

Example binary64_example_negative_infinite_cost :
  Binary64.calculate_green_score neg_infinity 0 = None.
Proof. vm_compute. reflexivity. Qed.

Lemma agrees_on_eighths_sound (n m i j : nat) :
  agrees_on_eighths n m = true -> (i < n)%nat -> (j < m)%nat ->
  Binary64.calculate_green_score (Binary64.eighths i) (Binary64.eighths j)
  = Some (spec_score (Z.of_nat i # 8) (Z.of_nat j # 8)).
Proof.
  unfold agrees_on_eighths. intros G Hi Hj.
  rewrite forallb_forall in G.
  specialize (G i (proj2 (in_seq n 0 i) (conj (Nat.le_0_l i) Hi))).
  rewrite forallb_forall in G.
  specialize (G j (proj2 (in_seq m 0 j) (conj (Nat.le_0_l j) Hj))).
  unfold agree in G.
  destruct (Binary64.calculate_green_score _ _) as [z |]; [| discriminate].
  apply Z.eqb_eq in G. now subst z.
Qed.

Lemma agrees_on_eighths_481_201 : agrees_on_eighths 481 201 = true.
Proof. vm_compute. reflexivity. Qed.

(** X4: on the eighths of [0, 60] x [0, 25], which covers both penalty
    ranges and their thresholds, the code raises nothing and returns the
    score of the exactly evaluated formula: rounding changes no score
    there. *)
Lemma binary64_agrees_on_eighths (i j : nat) :
  (i <= 480)%nat -> (j <= 200)%nat ->
  Binary64.calculate_green_score (Binary64.eighths i) (Binary64.eighths j)
  = Some (spec_score (Z.of_nat i # 8) (Z.of_nat j # 8)).
Proof.
  intros Hi Hj.
  apply (agrees_on_eighths_sound 481 201 i j agrees_on_eighths_481_201); lia.
Qed.

Lemma binary64_agrees_on_eighths_witness :
  Binary64.calculate_green_score (Binary64.eighths 99) (Binary64.eighths 37)
  = Some (spec_score (Z.of_nat 99 # 8) (Z.of_nat 37 # 8)).
Proof.
  apply binary64_agrees_on_eighths; lia.
Defined.

(** *** [int] truncates *)




(** *** Signs of binary64 results *)

Section BinarySigns.

Local Open Scope Z_scope.

Lemma digits2_pos_size (p : positive) : digits2_pos p = Pos.size p.
Proof. induction p as [p IH | p IH |]; cbn; now rewrite ?IH. Qed.

Lemma digits2_pos_bounds (p : positive) :
  2 ^ (Z.pos (digits2_pos p) - 1) <= Z.pos p < 2 ^ Z.pos (digits2_pos p).
Proof.
  rewrite digits2_pos_size.
  pose proof (Pos.size_le p) as L. pose proof (Pos.size_gt p) as G.
  assert (E : 2 ^ Z.pos (Pos.size p) = Z.pos (2 ^ Pos.size p))
    by now rewrite Pos2Z.inj_pow.
  split.
  - assert (2 * 2 ^ (Z.pos (Pos.size p) - 1) = 2 ^ Z.pos (Pos.size p)).
    { rewrite <- Z.pow_succ_r by lia. f_equal. lia. }
    assert (Z.pos (2 ^ Pos.size p) <= Z.pos p~0) by exact L.
    lia.
  - rewrite E. exact G.
Qed.

Lemma iter_xO_pow (m d : positive) :
  Z.pos (Pos.iter xO m d) = Z.pos m * 2 ^ Z.pos d.
Proof.
  induction d as [| d IH] using Pos.peano_ind.
  - cbn. lia.
  - rewrite Pos.iter_succ, Pos2Z.inj_succ, Z.pow_succ_r by lia.
    rewrite Pos2Z.inj_xO, IH. lia.
Qed.

(** A valid finite float has at most 53 digits, and exactly 53 above the
    least exponent. *)
Lemma bounded_digits (m : positive) (e : Z) :
  bounded prec emax m e = true ->
  Z.pos (digits2_pos m) <= prec
  /\ ((emin < e) -> Z.pos (digits2_pos m) = prec).
Proof.
  unfold bounded, canonical_mantissa, fexp, SpecFloat.emin, prec, emax.
  intros H. apply andb_true_iff in H. destruct H as [C _].
  apply Z.eqb_eq in C. lia.
Qed.

Lemma binary_round_aux_sign (s : bool) (m e : Z) (l : location) :
  match binary_round_aux prec emax s m e l with
  | S754_zero s' | S754_infinity s' | S754_finite s' _ _ => s' = s
  | S754_nan => True
  end.
Proof.
  unfold binary_round_aux.
  destruct (shr_fexp prec emax m e l) as [mrs' e'].
  destruct (shr_fexp prec emax _ e' loc_Exact) as [mrs'' e''].
  destruct (shr_m mrs''); [reflexivity | | exact I].
  now destruct (e'' <=? emax - prec)%Z.
Qed.

Lemma binary_round_aux_negative (m e : Z) (l : location) :
  not_positive (binary_round_aux prec emax true m e l).
Proof.
  pose proof (binary_round_aux_sign true m e l) as H.
  destruct (binary_round_aux prec emax true m e l); cbn; auto.
Qed.

Lemma binary_normalize_not_positive (d e : Z) :
  d <= 0 -> not_positive (binary_normalize prec emax d e false).
Proof.
  intros H. destruct d as [| p | p]; cbn [binary_normalize];
    [exact I | lia |].
  unfold binary_round.
  destruct (shl_align p e _) as [mz ez]. apply binary_round_aux_negative.
Qed.

(** [a - x] is not positive when the positive float [a] is at most
    [x]. *)
Lemma sub_not_positive (a x : float) (ma : positive) (ea : Z) :
  Prim2SF a = S754_finite false ma ea ->
  (a <=? x)%float = true ->
  not_positive (Prim2SF (a - x)).
Proof.
  intros Ea L. rewrite FloatAxioms.leb_spec, Ea in L. rewrite FloatAxioms.sub_spec, Ea.
  pose proof (Prim2SF_valid a) as Va. rewrite Ea in Va. cbn in Va.
  pose proof (Prim2SF_valid x) as Vx.
  destruct (Prim2SF x) as [s | s | | s m e]; cbn in L; try discriminate.
  - destruct s; [discriminate | reflexivity].
  - destruct s; [discriminate |]. cbn in Vx.
    unfold SF64sub, SFsub. cbn [cond_Zopp].
    apply binary_normalize_not_positive.
    destruct (bounded_digits ma ea Va) as [Da _].
    destruct (bounded_digits m e Vx) as [_ Dx].
    pose proof (digits2_pos_bounds ma) as Ba.
    pose proof (digits2_pos_bounds m) as Bx.
    assert (Hemin : emin <= ea).
    { unfold bounded, canonical_mantissa, fexp in Va.
      apply andb_true_iff in Va. destruct Va as [C _].
      apply Z.eqb_eq in C. lia. }
    unfold SFleb, SFcompare in L.
    pose proof (Z.compare_spec ea e) as CS.
    destruct (ea ?= e); inversion CS as [C | C | C].
    + subst e.
      rewrite Z.min_id. unfold shl_align. rewrite Z.sub_diag. cbn [fst].
      destruct (Pos.compare_cont Eq ma m) eqn:M; try discriminate.
      * apply Pos.compare_eq in M. subst. lia.
      * change (Pos.compare_cont Eq ma m) with (ma ?= m)%positive in M.
        pose proof (Pos2Z.pos_lt_pos ma m M). lia.
    + rewrite Z.min_l by lia. unfold shl_align at 1.
      rewrite Z.sub_diag. cbn [fst].
      unfold shl_align. destruct (ea - e) as [| d | d] eqn:D; try lia.
      cbn [fst]. rewrite iter_xO_pow.
      assert (Z.pos (digits2_pos m) = prec) by (apply Dx; lia).
      assert (2 ^ (prec - 1) <= Z.pos m) by (now rewrite <- H).
      assert (Z.pos ma < 2 ^ prec).
      { eapply Z.lt_le_trans; [apply Ba |].
        apply Z.pow_le_mono_r; lia. }
      assert (2 ^ 1 <= 2 ^ Z.pos d) by (apply Z.pow_le_mono_r; lia).
      assert (2 ^ prec = 2 ^ (prec - 1) * 2 ^ 1) by reflexivity.
      nia.
    + discriminate.
Qed.

Lemma div_not_positive (y a : float) (ma : positive) (ea : Z) :
  Prim2SF a = S754_finite false ma ea ->
  not_positive (Prim2SF y) ->
  not_positive (Prim2SF (y / a)).
Proof.
  intros Ea N. rewrite FloatAxioms.div_spec, Ea.
  destruct (Prim2SF y) as [s | s | | s m e]; cbn in N |- *; auto.
  - now subst s.
  - subst s. unfold SF64div, SFdiv.
    destruct (SFdiv_core_binary prec emax (Z.pos m) e (Z.pos ma) ea)
      as [[mz ez] lz].
    apply binary_round_aux_negative.
Qed.

Lemma ltb_zero_not_positive (y : float) :
  not_positive (Prim2SF y) -> (0 <? y)%float = false.
Proof.
  intros N. rewrite FloatAxioms.ltb_spec.
  change (Prim2SF 0) with (S754_zero false).
  destruct (Prim2SF y) as [s | s | | s m e]; cbn in N |- *;
    try reflexivity; now subst s.
Qed.

(** At and above a positive threshold [a], the penalty term
    [max(0, (a - x) / a)] is the integer 0 that [max] was given. *)
Lemma no_penalty_from_threshold (a x : float) (ma : positive) (ea : Z) :
  Prim2SF a = S754_finite false ma ea ->
  (a <=? x)%float = true ->
  Binary64.max 0 ((a - x) / a) = 0%float.
Proof.
  intros Ea L. unfold Binary64.max.
  rewrite ltb_zero_not_positive; [reflexivity |].
  apply (div_not_positive _ a ma ea Ea).
  now apply (sub_not_positive a x ma ea Ea).
Qed.

Lemma no_cost_penalty (cost : float) :
  (50 <=? cost)%float = true ->
  Binary64.max 0 ((50 - cost) / 50) = 0%float.
Proof.
  apply (no_penalty_from_threshold 50 cost 7036874417766400 (-47)).
  vm_compute. reflexivity.
Qed.

Lemma no_emission_penalty (carbon_emission : float) :
  (20 <=? carbon_emission)%float = true ->
  Binary64.max 0 ((20 - carbon_emission) / 20) = 0%float.
Proof.
  apply (no_penalty_from_threshold 20 carbon_emission
           5629499534213120 (-48)).
  vm_compute. reflexivity.
Qed.

End BinarySigns.




(** X2: the score saturates at the thresholds: a cost of 50 or more
    (+infinity included) scores as a cost of 50, an emission of 20 or
    more as an emission of 20, whatever the other argument is. *)
Theorem calculate_green_score_saturates (cost carbon_emission : float) :
  (50 <=? cost)%float = true ->
  (20 <=? carbon_emission)%float = true ->
  (forall e, Binary64.calculate_green_score cost e
             = Binary64.calculate_green_score 50 e)
  /\ (forall c, Binary64.calculate_green_score c carbon_emission
                = Binary64.calculate_green_score c 20).
Proof.
  intros Hc He. split.
  - intros e. unfold Binary64.calculate_green_score.
    rewrite (no_cost_penalty cost Hc).
    now rewrite (no_cost_penalty 50 eq_refl).
  - intros c. unfold Binary64.calculate_green_score.
    rewrite (no_emission_penalty carbon_emission He).
    now rewrite (no_emission_penalty 20 eq_refl).
Qed.

Lemma calculate_green_score_saturates_witness :
  Binary64.calculate_green_score 75 3 = Binary64.calculate_green_score 50 3
  /\ Binary64.calculate_green_score 8 0x1.e8p+4
     = Binary64.calculate_green_score 8 20.
Proof.
  destruct (calculate_green_score_saturates 75 0x1.e8p+4) as [Hc He];
    [vm_compute; reflexivity | vm_compute; reflexivity |].
  split; [apply Hc | apply He].
Defined.

(** X18: a cost that is NaN or +infinity is scored like a cost of 50,
    and an emission that is NaN or +infinity like an emission of 20:
    such an input raises nothing and carries no penalty, whatever the
    other argument is. *)
Theorem binary64_nan_and_infinity_carry_no_penalty (x : float) :
  Binary64.calculate_green_score nan x
  = Binary64.calculate_green_score 50 x
  /\ Binary64.calculate_green_score infinity x
     = Binary64.calculate_green_score 50 x
  /\ Binary64.calculate_green_score x nan
     = Binary64.calculate_green_score x 20
  /\ Binary64.calculate_green_score x infinity
     = Binary64.calculate_green_score x 20.
Proof. repeat split; reflexivity. Qed.

Example binary64_example_nan_nan :
  Binary64.calculate_green_score nan nan = Some 100.
Proof. vm_compute. reflexivity. Qed.

(** *** Rounding to nearest, and the order of the floats *)

Section Rounding.

Local Open Scope Z_scope.

Lemma shr_1_located (N D : Z) :
  0 <= N -> 0 < D -> shr_1 (located N D) = located N (2 * D).
Proof.
  intros HN HD. unfold located, shr_1.
  pose proof (Z.div_mod N D ltac:(lia)) as E.
  pose proof (Z.mod_pos_bound N D HD) as B.
  pose proof (Z.div_pos N D HN HD) as Q.
  assert (E2 : N / (2 * D) = N / D / 2)
    by (rewrite (Z.mul_comm 2 D); now rewrite Z.div_div by lia).
  pose proof (Z.div_mod N (2 * D) ltac:(lia)) as E'.
  pose proof (Z.mod_pos_bound N (2 * D) ltac:(lia)) as B'.
  pose proof (Z.div_mod (N / D) 2 ltac:(lia)) as E3.
  pose proof (Z.mod_pos_bound (N / D) 2 ltac:(lia)) as B3.
  set (q := N / D) in *. set (r := N mod D) in *.
  set (r' := N mod (2 * D)) in *.
  assert (R : r' = (q mod 2) * D + r) by nia.
  assert (C : q mod 2 = 0 \/ q mod 2 = 1) by lia.
  assert (S : (D <=? 2 * r) || (negb (r =? 0) && negb (2 * r =? D))
              = negb (r' =? 0) && negb (2 * r' =? 2 * D)).
  { destruct C as [C | C]; rewrite C in R;
      destruct (D <=? 2 * r) eqn:A; destruct (r =? 0) eqn:A0;
      destruct (2 * r =? D) eqn:A1; destruct (r' =? 0) eqn:A2;
      destruct (2 * r' =? 2 * D) eqn:A3; cbn; try reflexivity; exfalso;
      rewrite ?Z.leb_le, ?Z.leb_gt, ?Z.eqb_eq, ?Z.eqb_neq in *; lia. }
  rewrite <- S. rewrite E2.
  assert (T : (2 * D <=? 2 * r') = negb (q mod 2 =? 0)).
  { destruct C as [C | C]; rewrite C in R |- *;
      destruct (2 * D <=? 2 * r') eqn:A;
      cbn; try reflexivity; exfalso;
      rewrite ?Z.leb_le, ?Z.leb_gt in *; lia. }
  rewrite T. clear - Q.
  destruct q as [| p | p]; [reflexivity | | lia].
  destruct p as [p | p |]; cbn [Z.div Z.div_eucl Z.modulo];
    try reflexivity.
  - f_equal; [| now rewrite Pos2Z.inj_xI, Z.add_comm, Z.mul_comm, Z.mod_add by lia].
    rewrite Pos2Z.inj_xI. rewrite Z.add_comm, Z.mul_comm, Z.div_add by lia. reflexivity.
  - f_equal; [| now rewrite Pos2Z.inj_xO, Z.mul_comm, Z.mod_mul by lia].
    rewrite Pos2Z.inj_xO, Z.mul_comm, Z.div_mul by lia. reflexivity.
Qed.



Lemma iter_pos_shr_1_located (p : positive) (N : Z) :
  0 <= N ->
  forall D, 0 < D ->
  iter_pos shr_1 p (located N D) = located N (D * 2 ^ Z.pos p).
Proof.
  intros HN.
  induction p as [p IH | p IH |]; intros D HD; cbn [iter_pos].
  - assert (0 < 2 ^ Z.pos p) by (apply Z.pow_pos_nonneg; lia).
    rewrite shr_1_located, IH, IH by nia. f_equal.
    replace (Z.pos p~1) with (Z.pos p + Z.pos p + 1) by lia.
    rewrite !Z.pow_add_r by lia. lia.
  - assert (0 < 2 ^ Z.pos p) by (apply Z.pow_pos_nonneg; lia).
    rewrite IH, IH by nia. f_equal.
    replace (Z.pos p~0) with (Z.pos p + Z.pos p) by lia.
    rewrite !Z.pow_add_r by lia. lia.
  - rewrite shr_1_located by lia. f_equal. lia.
Qed.

Lemma shr_located (N D e n : Z) :
  0 <= N -> 0 < D -> 0 <= n ->
  shr (located N D) e n = (located N (D * 2 ^ n), e + n).
Proof.
  intros HN HD Hn. destruct n as [| p | p]; [| | lia]; cbn [shr].
  - now rewrite Z.pow_0_r, Z.mul_1_r, Z.add_0_r.
  - now rewrite iter_pos_shr_1_located.
Qed.

Lemma round_nearest_even_located (N D : Z) :
  0 < D ->
  round_nearest_even (shr_m (located N D))
                     (loc_of_shr_record (located N D))
  = round_half_even N D.
Proof.
  intros HD. unfold located, round_half_even, loc_of_shr_record.
  cbn [shr_m].
  pose proof (Z.mod_pos_bound N D HD) as B.
  pose proof (Z.compare_spec (2 * (N mod D)) D) as CS.
  destruct (2 * (N mod D) ?= D); inversion CS as [C | C | C].
  - assert ((D <=? 2 * (N mod D)) = true) as -> by (apply Z.leb_le; lia).
    assert ((N mod D =? 0) = false) as -> by (apply Z.eqb_neq; lia).
    assert ((2 * (N mod D) =? D) = true) as -> by (apply Z.eqb_eq; lia).
    reflexivity.
  - assert ((D <=? 2 * (N mod D)) = false) as -> by (apply Z.leb_gt; lia).
    now destruct (negb (N mod D =? 0) && negb (2 * (N mod D) =? D)).
  - assert ((D <=? 2 * (N mod D)) = true) as -> by (apply Z.leb_le; lia).
    assert ((N mod D =? 0) = false) as -> by (apply Z.eqb_neq; lia).
    assert ((2 * (N mod D) =? D) = false) as -> by (apply Z.eqb_neq; lia).
    reflexivity.
Qed.

Lemma located_exact (m : Z) : shr_record_of_loc m loc_Exact = located m 1.
Proof.
  unfold located. cbn [shr_record_of_loc].
  now rewrite Z.div_1_r, Z.mod_1_r.
Qed.

Lemma round_half_even_bounds (N D : Z) :
  N / D <= round_half_even N D <= N / D + 1.
Proof.
  unfold round_half_even.
  destruct (2 * (N mod D) ?= D); [destruct (Z.even (N / D)) | |]; lia.
Qed.

Lemma Zdigits2_nonneg (m : Z) : 0 <= Zdigits2 m.
Proof. destruct m; cbn; lia. Qed.

Lemma Zdigits2_bounds (m : Z) :
  0 < m -> 2 ^ (Zdigits2 m - 1) <= m < 2 ^ Zdigits2 m.
Proof.
  destruct m as [| p | p]; try lia. intros _. apply digits2_pos_bounds.
Qed.

Lemma Zdigits2_upper (m : Z) : 0 <= m -> m < 2 ^ Zdigits2 m.
Proof.
  intros H. destruct (Z.eq_dec m 0) as [-> | N]; [cbn; lia |].
  apply Zdigits2_bounds. lia.
Qed.

Lemma Zdigits2_le_of_lt (m k : Z) :
  0 <= m -> 0 <= k -> m < 2 ^ k -> Zdigits2 m <= k.
Proof.
  intros Hm Hk H. destruct (Z.eq_dec m 0) as [-> | N]; [cbn; lia |].
  pose proof (Zdigits2_bounds m ltac:(lia)) as B.
  destruct (Z_le_gt_dec (Zdigits2 m) k) as [|G']; [lia |].
  assert (2 ^ k <= 2 ^ (Zdigits2 m - 1))
    by (apply Z.pow_le_mono_r; lia).
  lia.
Qed.

Lemma Zdigits2_ge_of_le (m k : Z) : 2 ^ (k - 1) <= m -> 0 < m -> k <= Zdigits2 m.
Proof.
  intros H Hm. pose proof (Zdigits2_bounds m Hm) as B.
  destruct (Z_le_gt_dec k (Zdigits2 m)) as [| G]; [lia |].
  assert (2 ^ Zdigits2 m <= 2 ^ (k - 1)).
  { apply Z.pow_le_mono_r; [lia |]. lia. }
  lia.
Qed.

Lemma Zdigits2_le (a b : Z) : 0 <= a <= b -> Zdigits2 a <= Zdigits2 b.
Proof.
  intros [Ha Hab]. apply Zdigits2_le_of_lt; [lia | apply Zdigits2_nonneg |].
  pose proof (Zdigits2_upper b ltac:(lia)). lia.
Qed.

(** The mantissa that rounding leaves has at most 53 bits, or is
    [2 ^ 53]; above the least exponent it has at least 53. *)
Lemma rounded_mantissa_bounds (N D e E : Z) :
  0 <= N -> 0 < D ->
  E = fexp prec emax (Zdigits2 (N / D) + e) -> e <= E ->
  0 <= round_half_even N (D * 2 ^ (E - e)) <= 2 ^ prec
  /\ (emin < E -> 2 ^ (prec - 1) <= round_half_even N (D * 2 ^ (E - e))).
Proof.
  intros HN HD HE Le.
  assert (P : 0 < 2 ^ (E - e)) by (apply Z.pow_pos_nonneg; lia).
  pose proof (round_half_even_bounds N (D * 2 ^ (E - e))) as B.
  rewrite <- Z.div_div in B by lia.
  pose proof (Z.div_pos N D HN HD) as Q.
  pose proof (Zdigits2_upper (N / D) Q) as U.
  pose proof (Zdigits2_nonneg (N / D)) as Dn.
  set (mx := N / D) in *. set (d := Zdigits2 mx) in *.
  unfold fexp, SpecFloat.emin, prec, emax in *.
  assert (Z.max (d + e - 53) (3 - 1024 - 53) = Z.max (d + e - 53) (-1074))
    as Hm by reflexivity.
  rewrite Hm in HE. clear Hm.
  change (3 - 1024 - 53) with (-1074).
  split.
  - split.
    + assert (0 <= mx / 2 ^ (E - e)) by (apply Z.div_pos; lia). lia.
    + assert (mx / 2 ^ (E - e) < 2 ^ 53); [| lia].
      apply Z.div_lt_upper_bound; [lia |].
      rewrite <- Z.pow_add_r by lia.
      assert (2 ^ d <= 2 ^ (E - e + 53)) by (apply Z.pow_le_mono_r; lia).
      lia.
  - intros G. assert (HE' : E = d + e - 53) by lia.
    assert (Hd : 53 <= d) by lia.
    assert (Hmx : 0 < mx).
    { destruct (Z.eq_dec mx 0) as [Z0 | ]; [| lia].
      subst d. rewrite Z0 in Hd. cbn in Hd. lia. }
    pose proof (Zdigits2_bounds mx Hmx) as Bd. fold d in Bd.
    assert (2 ^ (53 - 1) <= mx / 2 ^ (E - e)); [| lia].
    apply Z.div_le_lower_bound; [lia |].
    rewrite <- Z.pow_add_r by lia.
    replace (E - e + (53 - 1)) with (d - 1) by lia. lia.
Qed.

Lemma cond_Zopp_0 (s : bool) : cond_Zopp s 0 = 0.
Proof. now destruct s. Qed.

(** What [binary_round_aux] returns, by rank: the rank of the rounded
    value, or that of the infinity when it is beyond the largest
    float. *)
Lemma binary_round_aux_rank (s : bool) (mx : Z) (lx : location)
    (N D e : Z) :
  0 <= N -> 0 < D ->
  shr_record_of_loc mx lx = located N D ->
  e <= fexp prec emax (Zdigits2 (N / D) + e) ->
  binary_round_aux prec emax s mx e lx <> S754_nan
  /\ rank (binary_round_aux prec emax s mx e lx)
     = cond_Zopp s (Z.min (raw_rank N D e) rank_infinity).
Proof.
  intros HN HD HL Le.
  assert (Hmx : mx = N / D).
  { transitivity (shr_m (shr_record_of_loc mx lx));
      [now destruct lx as [| []] | now rewrite HL]. }
  unfold binary_round_aux, shr_fexp. rewrite HL, Hmx.
  unfold raw_rank.
  set (E := fexp prec emax (Zdigits2 (N / D) + e)) in *.
  destruct (rounded_mantissa_bounds N D e E HN HD eq_refl Le)
    as [[M0 M1] M2].
  assert (P : 0 < 2 ^ (E - e)) by (apply Z.pow_pos_nonneg; lia).
  rewrite shr_located by lia.
  replace (e + (E - e)) with E by lia.
  rewrite round_nearest_even_located by nia.
  set (M := round_half_even N (D * 2 ^ (E - e))) in *.
  rewrite located_exact.
  assert (Emin : -1074 <= E).
  { subst E. unfold fexp, SpecFloat.emin, prec, emax. lia. }
  unfold rank_infinity.
  change (2 ^ prec) with 9007199254740992 in *.
  change (2 ^ (prec - 1)) with 4503599627370496 in *.
  change (emax - prec + 1 - emin) with 2046.
  change emin with (-1074) in *.
  destruct (Z.eq_dec M 9007199254740992) as [Top | NTop].
  - rewrite Top.
    change (Zdigits2 9007199254740992) with 54.
    assert (fexp prec emax (54 + E) - E = 1) as ->
      by (unfold fexp, SpecFloat.emin, prec, emax; lia).
    rewrite shr_located by lia.
    cbn [fst snd shr_m located]. 
    change (9007199254740992 / (1 * 2 ^ 1)) with 4503599627370496.
    change (emax - prec) with 971.
    destruct (E + 1 <=? 971) eqn:O.
    + apply Z.leb_le in O. split; [discriminate |]. cbn [rank].
      change (2 ^ (prec - 1)) with 4503599627370496.
      change emin with (-1074).
      fold (cond_Zopp s ((E + 1 - -1074) * 4503599627370496
                         + 4503599627370496)).
      f_equal. lia.
    + apply Z.leb_gt in O. split; [discriminate |]. cbn [rank].
      unfold rank_infinity.
      change (2 ^ (prec - 1)) with 4503599627370496.
      change (emax - prec + 1 - emin) with 2046.
      fold (cond_Zopp s (2046 * 4503599627370496 + 4503599627370496)).
      f_equal. lia.
  - assert (Hd : Zdigits2 M <= 53)
      by (apply Zdigits2_le_of_lt; lia).
    assert (Hn : fexp prec emax (Zdigits2 M + E) - E <= 0)
      by (unfold fexp, SpecFloat.emin, prec, emax; lia).
    assert (shr (located M 1) E (fexp prec emax (Zdigits2 M + E) - E)
            = (located M 1, E)) as ->.
    { destruct (fexp prec emax (Zdigits2 M + E) - E); try reflexivity.
      lia. }
    cbn [shr_m located]. rewrite Z.div_1_r.
    change (emax - prec) with 971.
    destruct M as [| m | m] eqn:EM; [| | lia].
    + split; [discriminate |]. cbn [rank].
      assert (E = -1074) as -> by lia.
      cbn. now rewrite cond_Zopp_0.
    + destruct (E <=? 971) eqn:O.
      * apply Z.leb_le in O. split; [discriminate |]. cbn [rank].
        change (2 ^ (prec - 1)) with 4503599627370496.
        change emin with (-1074).
        fold (cond_Zopp s ((E - -1074) * 4503599627370496 + Z.pos m)).
        f_equal. lia.
      * apply Z.leb_gt in O. split; [discriminate |]. cbn [rank].
        unfold rank_infinity.
        change (2 ^ (prec - 1)) with 4503599627370496.
        change (emax - prec + 1 - emin) with 2046.
        fold (cond_Zopp s (2046 * 4503599627370496 + 4503599627370496)).
        f_equal. lia.
Qed.

Lemma round_half_even_scale (N D k : Z) :
  0 < D -> 0 < k ->
  round_half_even (k * N) (k * D) = round_half_even N D.
Proof.
  intros HD Hk. unfold round_half_even.
  rewrite Z.div_mul_cancel_l by lia.
  rewrite Z.mul_mod_distr_l by lia.
  pose proof (Z.compare_spec (2 * (k * (N mod D))) (k * D)) as C1.
  pose proof (Z.compare_spec (2 * (N mod D)) D) as C2.
  destruct (2 * (k * (N mod D)) ?= k * D);
    destruct (2 * (N mod D) ?= D); inversion C1; inversion C2;
    try reflexivity; exfalso; nia.
Qed.

Lemma round_half_even_mono (N1 N2 D : Z) :
  0 < D -> N1 <= N2 ->
  round_half_even N1 D <= round_half_even N2 D.
Proof.
  intros HD L.
  pose proof (Z.div_le_mono N1 N2 D HD L) as Q.
  destruct (Z.eq_dec (N1 / D) (N2 / D)) as [E | NE].
  - pose proof (Z.div_mod N1 D ltac:(lia)) as E1.
    pose proof (Z.div_mod N2 D ltac:(lia)) as E2.
    assert (R : N1 mod D <= N2 mod D) by (rewrite E in E1; nia).
    unfold round_half_even. rewrite E.
    pose proof (Z.compare_spec (2 * (N1 mod D)) D) as C1.
    pose proof (Z.compare_spec (2 * (N2 mod D)) D) as C2.
    destruct (2 * (N1 mod D) ?= D); destruct (2 * (N2 mod D) ?= D);
      inversion C1; inversion C2; destruct (Z.even (N2 / D)); lia.
  - pose proof (round_half_even_bounds N1 D).
    pose proof (round_half_even_bounds N2 D). lia.
Qed.

(** The same value written with a mantissa twice as long. *)
Lemma raw_rank_refine (N D e : Z) :
  0 <= N -> 0 < D ->
  e <= fexp prec emax (Zdigits2 (N / D) + e) ->
  e - 1 <= fexp prec emax (Zdigits2 (2 * N / D) + (e - 1))
  /\ raw_rank (2 * N) D (e - 1) = raw_rank N D e.
Proof.
  intros HN HD Le.
  pose proof (Z.div_pos N D HN HD) as Q.
  pose proof (Z.div_mod N D ltac:(lia)) as E1.
  pose proof (Z.mod_pos_bound N D HD) as B1.
  pose proof (Z.div_mod (2 * N) D ltac:(lia)) as E2.
  pose proof (Z.mod_pos_bound (2 * N) D HD) as B2.
  assert (Q2 : 2 * (N / D) <= 2 * N / D <= 2 * (N / D) + 1) by nia.
  assert (HE : fexp prec emax (Zdigits2 (2 * N / D) + (e - 1))
               = fexp prec emax (Zdigits2 (N / D) + e)).
  { destruct (Z.eq_dec (N / D) 0) as [Z0 | NZ].
    - rewrite Z0 in *. cbn [Zdigits2] in *.
      assert (Zdigits2 (2 * N / D) <= 1)
        by (apply Zdigits2_le_of_lt; [lia | lia | change (2 ^ 1) with 2; lia]).
      pose proof (Zdigits2_nonneg (2 * N / D)).
      unfold fexp, SpecFloat.emin, prec, emax in *. lia.
    - pose proof (Zdigits2_bounds (N / D) ltac:(lia)) as Bd.
      pose proof (Zdigits2_nonneg (N / D)) as Dn.
      assert (Zdigits2 (2 * N / D) = Zdigits2 (N / D) + 1).
      { apply Z.le_antisymm.
        - apply Zdigits2_le_of_lt; [lia | lia |].
          rewrite Z.pow_add_r by lia. change (2 ^ 1) with 2. lia.
        - apply Zdigits2_ge_of_le; [| lia].
          replace (Zdigits2 (N / D) + 1 - 1)
            with (Zdigits2 (N / D) - 1 + 1) by lia.
          assert (1 <= Zdigits2 (N / D)).
          { destruct (N / D); cbn in *; lia. }
          rewrite Z.pow_add_r by lia. change (2 ^ 1) with 2. lia. }
      f_equal. lia. }
  split; [lia |].
  unfold raw_rank. rewrite HE.
  set (E := fexp prec emax (Zdigits2 (N / D) + e)) in *.
  f_equal.
  replace (E - (e - 1)) with (E - e + 1) by lia.
  rewrite Z.pow_add_r by lia. change (2 ^ 1) with 2.
  replace (D * (2 ^ (E - e) * 2)) with (2 * (D * 2 ^ (E - e))) by lia.
  assert (0 < 2 ^ (E - e)) by (apply Z.pow_pos_nonneg; lia).
  apply round_half_even_scale; nia.
Qed.

Lemma raw_rank_shift (k : Z) :
  0 <= k ->
  forall N D e,
  0 <= N -> 0 < D ->
  e <= fexp prec emax (Zdigits2 (N / D) + e) ->
  e - k <= fexp prec emax (Zdigits2 (N * 2 ^ k / D) + (e - k))
  /\ raw_rank (N * 2 ^ k) D (e - k) = raw_rank N D e.
Proof.
  intros Hk. pattern k. apply natlike_ind; [| | exact Hk]; clear k Hk.
  - intros N D e HN HD Le.
    now rewrite Z.pow_0_r, Z.mul_1_r, Z.sub_0_r.
  - intros k Hk IH N D e HN HD Le.
    destruct (raw_rank_refine N D e HN HD Le) as [Le' R'].
    destruct (IH (2 * N) D (e - 1) ltac:(lia) HD Le') as [Le'' R''].
    rewrite Z.pow_succ_r by lia.
    replace (N * (2 * 2 ^ k)) with (2 * N * 2 ^ k) by lia.
    replace (e - Z.succ k) with (e - 1 - k) by lia.
    split; [exact Le'' | congruence].
Qed.

Lemma raw_rank_mono_aligned (N1 N2 D e : Z) :
  0 <= N1 -> 0 < D -> N1 <= N2 ->
  e <= fexp prec emax (Zdigits2 (N1 / D) + e) ->
  e <= fexp prec emax (Zdigits2 (N2 / D) + e) ->
  raw_rank N1 D e <= raw_rank N2 D e.
Proof.
  intros HN HD L Le1 Le2. unfold raw_rank.
  pose proof (Z.div_le_mono N1 N2 D HD L) as Q.
  pose proof (Z.div_pos N1 D HN HD) as Q1.
  pose proof (Zdigits2_le (N1 / D) (N2 / D) ltac:(lia)) as Dg.
  set (E1 := fexp prec emax (Zdigits2 (N1 / D) + e)) in *.
  set (E2 := fexp prec emax (Zdigits2 (N2 / D) + e)) in *.
  assert (LE : E1 <= E2)
    by (subst E1 E2; unfold fexp, SpecFloat.emin, prec, emax; lia).
  destruct (rounded_mantissa_bounds N1 D e E1 HN HD eq_refl Le1)
    as [[A0 A1] A2].
  destruct (rounded_mantissa_bounds N2 D e E2 ltac:(lia) HD eq_refl Le2)
    as [[B0 B1] B2].
  change (2 ^ prec) with 9007199254740992 in *.
  change (2 ^ (prec - 1)) with 4503599627370496 in *.
  change emin with (-1074) in *.
  assert (Emin : -1074 <= E1)
    by (subst E1; unfold fexp, SpecFloat.emin, prec, emax; lia).
  destruct (Z.eq_dec E1 E2) as [EQ | NE].
  - rewrite <- EQ.
    assert (0 < 2 ^ (E1 - e)) by (apply Z.pow_pos_nonneg; lia).
    pose proof (round_half_even_mono N1 N2 (D * 2 ^ (E1 - e))
                  ltac:(nia) L).
    lia.
  - specialize (B2 ltac:(lia)). nia.
Qed.

(** Rounding is monotone: of two values, the smaller is not rounded
    above the larger. *)
Lemma raw_rank_mono (N1 N2 D e1 e2 e0 : Z) :
  0 <= N1 -> 0 < D ->
  e0 <= e1 -> e0 <= e2 ->
  N1 * 2 ^ (e1 - e0) <= N2 * 2 ^ (e2 - e0) ->
  e1 <= fexp prec emax (Zdigits2 (N1 / D) + e1) ->
  e2 <= fexp prec emax (Zdigits2 (N2 / D) + e2) ->
  raw_rank N1 D e1 <= raw_rank N2 D e2.
Proof.
  intros HN HD L1 L2 L Le1 Le2.
  assert (P1 : 0 < 2 ^ (e1 - e0)) by (apply Z.pow_pos_nonneg; lia).
  assert (P2 : 0 < 2 ^ (e2 - e0)) by (apply Z.pow_pos_nonneg; lia).
  assert (HN2 : 0 <= N2) by nia.
  destruct (raw_rank_shift (e1 - e0) ltac:(lia) N1 D e1 HN HD Le1)
    as [S1 R1].
  destruct (raw_rank_shift (e2 - e0) ltac:(lia) N2 D e2 HN2 HD Le2)
    as [S2 R2].
  rewrite <- R1, <- R2.
  replace (e1 - (e1 - e0)) with e0 in * by lia.
  replace (e2 - (e2 - e0)) with e0 in * by lia.
  apply raw_rank_mono_aligned; try assumption. nia.
Qed.

Lemma raw_rank_nonneg (N D e : Z) :
  0 <= N -> 0 < D ->
  e <= fexp prec emax (Zdigits2 (N / D) + e) ->
  0 <= raw_rank N D e.
Proof.
  intros HN HD Le. unfold raw_rank.
  set (E := fexp prec emax (Zdigits2 (N / D) + e)) in *.
  destruct (rounded_mantissa_bounds N D e E HN HD eq_refl Le)
    as [[A0 A1] A2].
  assert (Emin : -1074 <= E)
    by (subst E; unfold fexp, SpecFloat.emin, prec, emax; lia).
  change (2 ^ (prec - 1)) with 4503599627370496 in *.
  change emin with (-1074) in *. lia.
Qed.

Lemma shl_align_spec (m : positive) (e e' : Z) :
  exists k, 0 <= k
    /\ shl_align m e e' = (Z.to_pos (Z.pos m * 2 ^ k), e - k)
    /\ k = Z.max 0 (e - e').
Proof.
  unfold shl_align. destruct (e' - e) as [| d | d] eqn:Hd.
  - exists 0. split; [lia |]. split; [| lia].
    now rewrite Z.pow_0_r, Z.mul_1_r, Z.sub_0_r.
  - exists 0. split; [lia |]. split; [| lia].
    now rewrite Z.pow_0_r, Z.mul_1_r, Z.sub_0_r.
  - exists (Z.pos d). split; [lia |]. split; [| lia].
    f_equal; [| lia].
    rewrite <- iter_xO_pow. reflexivity.
Qed.

(** [binary_round] by rank: it rounds [m * 2 ^ e], whatever the sign. *)
Lemma binary_round_rank (m : positive) (e : Z) :
  exists N e',
    0 < N /\ e' <= e /\ N = Z.pos m * 2 ^ (e - e')
    /\ e' <= fexp prec emax (Zdigits2 (N / 1) + e')
    /\ forall s,
         binary_round prec emax s m e <> S754_nan
         /\ rank (binary_round prec emax s m e)
            = cond_Zopp s (Z.min (raw_rank N 1 e') rank_infinity).
Proof.
  unfold binary_round.
  destruct (shl_align_spec m e (fexp prec emax (Z.pos (digits2_pos m) + e)))
    as (k & Hk & -> & Ek).
  assert (P : 0 < 2 ^ k) by (apply Z.pow_pos_nonneg; lia).
  set (N := Z.pos m * 2 ^ k).
  assert (HN : 0 < N) by (subst N; nia).
  exists N, (e - k).
  replace (e - (e - k)) with k by lia.
  rewrite Z2Pos.id by exact HN.
  assert (Le : e - k <= fexp prec emax (Zdigits2 (N / 1) + (e - k))).
  { rewrite Z.div_1_r.
    assert (Zdigits2 N = Z.pos (digits2_pos m) + k).
    { pose proof (digits2_pos_bounds m) as B.
      apply Z.le_antisymm.
      - apply Zdigits2_le_of_lt; [lia | lia |].
        rewrite Z.pow_add_r by lia. subst N. nia.
      - apply Zdigits2_ge_of_le; [| lia].
        replace (Z.pos (digits2_pos m) + k - 1)
          with (Z.pos (digits2_pos m) - 1 + k) by lia.
        rewrite Z.pow_add_r by lia. subst N. nia. }
    rewrite H.
    replace (Z.pos (digits2_pos m) + k + (e - k))
      with (Z.pos (digits2_pos m) + e) by lia.
    lia. }
  repeat split; try assumption; try lia;
    destruct (binary_round_aux_rank s N loc_Exact N 1 (e - k))
      as [NN R]; try lia; try apply located_exact; assumption.
Qed.

Lemma rank_infinity_pos : 0 < rank_infinity.
Proof. reflexivity. Qed.

Lemma scaled_le (z1 z2 e1 e2 e0 e0' : Z) :
  e0' <= e0 -> e0 <= e1 -> e0 <= e2 ->
  z1 * 2 ^ (e1 - e0) <= z2 * 2 ^ (e2 - e0) ->
  z1 * 2 ^ (e1 - e0') <= z2 * 2 ^ (e2 - e0').
Proof.
  intros L0 L1 L2 L.
  replace (e1 - e0') with (e1 - e0 + (e0 - e0')) by lia.
  replace (e2 - e0') with (e2 - e0 + (e0 - e0')) by lia.
  rewrite !Z.pow_add_r by lia.
  assert (0 < 2 ^ (e0 - e0')) by (apply Z.pow_pos_nonneg; lia).
  nia.
Qed.

Lemma scaled_twice (z e e' e0 : Z) :
  e0 <= e' -> e' <= e ->
  z * 2 ^ (e - e') * 2 ^ (e' - e0) = z * 2 ^ (e - e0).
Proof.
  intros L0 L1. replace (e - e0) with (e - e' + (e' - e0)) by lia.
  rewrite Z.pow_add_r by lia. lia.
Qed.

(** Rounding to a float is monotone. *)
Lemma round_rank_mono (z1 z2 e1 e2 e0 : Z) :
  e0 <= e1 -> e0 <= e2 ->
  z1 * 2 ^ (e1 - e0) <= z2 * 2 ^ (e2 - e0) ->
  round_rank z1 e1 <= round_rank z2 e2.
Proof.
  intros L1 L2 L.
  assert (P1 : 0 < 2 ^ (e1 - e0)) by (apply Z.pow_pos_nonneg; lia).
  assert (P2 : 0 < 2 ^ (e2 - e0)) by (apply Z.pow_pos_nonneg; lia).
  pose proof rank_infinity_pos as RI.
  assert (Pos : forall p e, 0 <= round_rank (Z.pos p) e).
  { intros p e. unfold round_rank. cbn [binary_normalize].
    destruct (binary_round_rank p e) as (N & e' & H1 & H2 & H3 & H4 & H5).
    rewrite (proj2 (H5 false)). cbn [cond_Zopp].
    pose proof (raw_rank_nonneg N 1 e' ltac:(lia) ltac:(lia) H4). lia. }
  assert (Neg : forall p e, round_rank (Z.neg p) e <= 0).
  { intros p e. unfold round_rank. cbn [binary_normalize].
    destruct (binary_round_rank p e) as (N & e' & H1 & H2 & H3 & H4 & H5).
    rewrite (proj2 (H5 true)). cbn [cond_Zopp].
    pose proof (raw_rank_nonneg N 1 e' ltac:(lia) ltac:(lia) H4). lia. }
  assert (Mono : forall p1 p2 ea eb,
             e0 <= ea -> e0 <= eb ->
             Z.pos p1 * 2 ^ (ea - e0) <= Z.pos p2 * 2 ^ (eb - e0) ->
             round_rank (Z.pos p1) ea <= round_rank (Z.pos p2) eb
             /\ round_rank (Z.neg p2) eb <= round_rank (Z.neg p1) ea).
  { intros p1 p2 ea eb La Lb Lp. unfold round_rank.
    cbn [binary_normalize].
    destruct (binary_round_rank p1 ea)
      as (N1 & e1' & A1 & A2 & A3 & A4 & A5).
    destruct (binary_round_rank p2 eb)
      as (N2 & e2' & B1 & B2 & B3 & B4 & B5).
    rewrite (proj2 (A5 true)), (proj2 (A5 false)).
    rewrite (proj2 (B5 true)), (proj2 (B5 false)).
    cbn [cond_Zopp].
    assert (raw_rank N1 1 e1' <= raw_rank N2 1 e2'); [| lia].
    apply (raw_rank_mono N1 N2 1 e1' e2' (Z.min e0 (Z.min e1' e2')));
      try lia; try assumption.
    rewrite A3, B3.
    rewrite !scaled_twice by lia.
    apply (scaled_le _ _ _ _ e0); lia. }
  destruct z1 as [| p1 | p1], z2 as [| p2 | p2];
    try (exfalso; nia).
  - reflexivity.
  - apply (Pos p2 e2).
  - now apply Mono.
  - apply (Neg p1 e1).
  - pose proof (Neg p1 e1). pose proof (Pos p2 e2). lia.
  - apply (Mono p2 p1 e2 e1); lia.
Qed.

(** The rounded value does not depend on how the value is written. *)
Lemma round_rank_shift (z e e0 : Z) :
  e0 <= e -> round_rank (z * 2 ^ (e - e0)) e0 = round_rank z e.
Proof.
  intros L. apply Z.le_antisymm.
  - apply (round_rank_mono _ _ _ _ e0); try lia.
    now rewrite Z.sub_diag, Z.pow_0_r, Z.mul_1_r.
  - apply (round_rank_mono _ _ _ _ e0); try lia.
    now rewrite Z.sub_diag, Z.pow_0_r, Z.mul_1_r.
Qed.

Lemma binary_normalize_not_nan (z e : Z) :
  binary_normalize prec emax z e false <> S754_nan.
Proof.
  destruct z as [| p | p]; cbn [binary_normalize]; [discriminate | |];
    destruct (binary_round_rank p e) as (N & e' & _ & _ & _ & _ & H);
    apply H.
Qed.

End Rounding.

Section ValidFloats.

Local Open Scope Z_scope.

Lemma valid_finite (s : bool) (m : positive) (e : Z) :
  valid_binary (S754_finite s m e) = true ->
  -1074 <= e <= 971
  /\ Z.pos m < 9007199254740992
  /\ (-1074 < e -> 4503599627370496 <= Z.pos m)
  /\ e = fexp prec emax (Z.pos (digits2_pos m) + e).
Proof.
  cbn [valid_binary]. intros V.
  destruct (bounded_digits m e V) as [D1 D2].
  pose proof (digits2_pos_bounds m) as B.
  unfold bounded, canonical_mantissa in V.
  apply andb_true_iff in V. destruct V as [C O].
  apply Z.eqb_eq in C. apply Z.leb_le in O.
  change (emax - prec) with 971 in O.
  assert (Emin : -1074 <= e).
  { rewrite <- C. unfold fexp, SpecFloat.emin, prec, emax. lia. }
  split; [lia |]. split; [| split; [| now rewrite C]].
  - assert (2 ^ Z.pos (digits2_pos m) <= 2 ^ prec)
      by (apply Z.pow_le_mono_r; lia).
    change (2 ^ prec) with 9007199254740992 in *. lia.
  - intros G. rewrite D2 in B by exact G.
    change (2 ^ (prec - 1)) with 4503599627370496 in B. lia.
Qed.

Lemma round_half_even_1 (m : Z) : round_half_even m 1 = m.
Proof.
  unfold round_half_even. rewrite Z.mod_1_r, Z.div_1_r. reflexivity.
Qed.

Lemma raw_rank_valid (s : bool) (m : positive) (e : Z) :
  valid_binary (S754_finite s m e) = true ->
  e <= fexp prec emax (Zdigits2 (Z.pos m / 1) + e)
  /\ raw_rank (Z.pos m) 1 e = (e - emin) * 2 ^ (prec - 1) + Z.pos m
  /\ raw_rank (Z.pos m) 1 e < rank_infinity.
Proof.
  intros V. destruct (valid_finite s m e V) as (B1 & B2 & B3 & C).
  assert (R : raw_rank (Z.pos m) 1 e
              = (e - emin) * 2 ^ (prec - 1) + Z.pos m).
  { unfold raw_rank. rewrite Z.div_1_r. cbn [Zdigits2]. rewrite <- C.
    now rewrite Z.sub_diag, Z.pow_0_r, Z.mul_1_r, round_half_even_1. }
  split; [| split; [exact R |]].
  - rewrite Z.div_1_r. cbn [Zdigits2]. lia.
  - rewrite R. unfold rank_infinity.
    change (2 ^ (prec - 1)) with 4503599627370496.
    change (emax - prec + 1 - emin) with 2046.
    change emin with (-1074). lia.
Qed.

(** Rounding a float gives the float. *)
Lemma round_rank_valid (x : spec_float) :
  valid_binary x = true -> sf_finite x = true ->
  round_rank (sf_num x) (sf_exp x) = rank x.
Proof.
  intros V F. destruct x as [s | s | | s m e]; try discriminate.
  - reflexivity.
  - destruct (raw_rank_valid s m e V) as (Le & R & I).
    cbn [sf_num sf_exp rank].
    change (let k := (e - emin) * 2 ^ (prec - 1) + Z.pos m in
            if s then - k else k)
      with (cond_Zopp s ((e - emin) * 2 ^ (prec - 1) + Z.pos m)).
    rewrite <- R.
    assert (G : forall s', rank (binary_round prec emax s' m e)
                           = cond_Zopp s' (raw_rank (Z.pos m) 1 e)).
    { intros s'.
      destruct (binary_round_rank m e)
        as (N & e' & A1 & A2 & A3 & A4 & A5).
      rewrite (proj2 (A5 s')). f_equal.
      destruct (raw_rank_shift (e - e') ltac:(lia) (Z.pos m) 1 e
                  ltac:(lia) ltac:(lia) Le) as [_ S].
      replace (e - (e - e')) with e' in S by lia.
      rewrite <- A3 in S. rewrite S. lia. }
    unfold round_rank. destruct s; cbn [cond_Zopp binary_normalize Z.opp];
      now rewrite G.
Qed.

Lemma rank_bounds (x : spec_float) :
  valid_binary x = true ->
  - rank_infinity <= rank x <= rank_infinity.
Proof.
  intros V. pose proof rank_infinity_pos.
  destruct x as [s | s | | s m e]; cbn [rank]; try lia.
  - destruct s; lia.
  - destruct (raw_rank_valid s m e V) as (_ & R & I). rewrite R in I.
    destruct (valid_finite s m e V) as (B1 & _).
    change (2 ^ (prec - 1)) with 4503599627370496 in *.
    change emin with (-1074) in *.
    destruct s; cbn zeta; lia.
Qed.

(** Strictly between the infinities there are the finite floats only. *)
Lemma rank_finite (x : spec_float) :
  x <> S754_nan -> - rank_infinity < rank x < rank_infinity ->
  sf_finite x = true.
Proof.
  intros N R. destruct x as [s | s | | s m e]; try reflexivity;
    [| congruence].
  cbn [rank] in R. destruct s; lia.
Qed.

Lemma finite_rank (x : spec_float) :
  valid_binary x = true -> sf_finite x = true ->
  - rank_infinity < rank x < rank_infinity.
Proof.
  intros V F. pose proof rank_infinity_pos.
  destruct x as [s | s | | s m e]; try discriminate; cbn [rank]; try lia.
  destruct (raw_rank_valid s m e V) as (_ & R & I). rewrite R in I.
  destruct (valid_finite s m e V) as (B1 & _).
  change (2 ^ (prec - 1)) with 4503599627370496 in *.
  change emin with (-1074) in *.
  destruct s; cbn zeta; lia.
Qed.

(** Floats are ordered as their ranks are. *)
Lemma rank_le_aligned_pos (m1 m2 : positive) (e1 e2 e0 : Z) (s1 s2 : bool) :
  valid_binary (S754_finite s1 m1 e1) = true ->
  valid_binary (S754_finite s2 m2 e2) = true ->
  e0 <= e1 -> e0 <= e2 ->
  (e1 - emin) * 2 ^ (prec - 1) + Z.pos m1
  <= (e2 - emin) * 2 ^ (prec - 1) + Z.pos m2 ->
  Z.pos m1 * 2 ^ (e1 - e0) <= Z.pos m2 * 2 ^ (e2 - e0).
Proof.
  intros V1 V2 L1 L2 R.
  destruct (valid_finite s1 m1 e1 V1) as (A1 & A2 & A3 & _).
  destruct (valid_finite s2 m2 e2 V2) as (B1 & B2 & B3 & _).
  change (2 ^ (prec - 1)) with 4503599627370496 in *.
  change emin with (-1074) in *.
  assert (P1 : 0 < 2 ^ (e1 - e0)) by (apply Z.pow_pos_nonneg; lia).
  destruct (Z.lt_trichotomy e1 e2) as [Lt | [Eq | Gt]].
  - specialize (B3 ltac:(lia)).
    replace (e2 - e0) with (e1 - e0 + (e2 - e1 - 1) + 1) by lia.
    rewrite !Z.pow_add_r by lia. change (2 ^ 1) with 2.
    assert (0 < 2 ^ (e2 - e1 - 1)) by (apply Z.pow_pos_nonneg; lia).
    set (A := 2 ^ (e1 - e0)) in *. set (B := 2 ^ (e2 - e1 - 1)) in *.
    assert (Z.pos m1 * A <= 2 * Z.pos m2 * A) by nia.
    assert (2 * Z.pos m2 * A * 1 <= 2 * Z.pos m2 * A * B)
      by (apply Z.mul_le_mono_nonneg_l; nia).
    lia.
  - subst e2. nia.
  - specialize (A3 ltac:(lia)). exfalso. nia.
Qed.

Lemma aligned_finite (s : bool) (m : positive) (e e0 : Z) :
  aligned (S754_finite s m e) e0 = cond_Zopp s (Z.pos m * 2 ^ (e - e0)).
Proof. unfold aligned. destruct s; cbn [sf_num sf_exp cond_Zopp]; lia. Qed.

Lemma rank_le_aligned (x1 x2 : spec_float) (e0 : Z) :
  valid_binary x1 = true -> valid_binary x2 = true ->
  sf_finite x1 = true -> sf_finite x2 = true ->
  e0 <= sf_exp x1 -> e0 <= sf_exp x2 ->
  rank x1 <= rank x2 ->
  aligned x1 e0 <= aligned x2 e0.
Proof.
  intros V1 V2 F1 F2 L1 L2 R.
  destruct x1 as [s1 | s1 | | s1 m1 e1]; try discriminate;
    destruct x2 as [s2 | s2 | | s2 m2 e2]; try discriminate;
    rewrite ?aligned_finite; cbn [sf_exp] in L1, L2.
  - unfold aligned. cbn [sf_num]. rewrite Z.mul_0_l.
    assert (P : 0 < 2 ^ (e2 - e0)) by (apply Z.pow_pos_nonneg; lia).
    destruct (valid_finite s2 m2 e2 V2) as (B1 & _).
    cbn [rank] in R.
    change (2 ^ (prec - 1)) with 4503599627370496 in *.
    change emin with (-1074) in *.
    destruct s2; cbn [cond_Zopp] in *; cbn zeta in R; nia.
  - unfold aligned. cbn [sf_num]. rewrite Z.mul_0_l.
    assert (P : 0 < 2 ^ (e1 - e0)) by (apply Z.pow_pos_nonneg; lia).
    destruct (valid_finite s1 m1 e1 V1) as (B1 & _).
    cbn [rank] in R.
    change (2 ^ (prec - 1)) with 4503599627370496 in *.
    change emin with (-1074) in *.
    destruct s1; cbn [cond_Zopp] in *; cbn zeta in R; nia.
  - assert (P1 : 0 < 2 ^ (e1 - e0)) by (apply Z.pow_pos_nonneg; lia).
    assert (P2 : 0 < 2 ^ (e2 - e0)) by (apply Z.pow_pos_nonneg; lia).
    destruct (valid_finite s1 m1 e1 V1) as (A1 & _).
    destruct (valid_finite s2 m2 e2 V2) as (B1 & _).
    cbn [rank] in R. cbn zeta in R.
    destruct s1, s2; cbn [cond_Zopp].
    + pose proof (rank_le_aligned_pos m2 m1 e2 e1 e0 true true V2 V1
                    L2 L1 ltac:(lia)). lia.
    + nia.
    + exfalso.
      change (2 ^ (prec - 1)) with 4503599627370496 in *.
      change emin with (-1074) in *. nia.
    + apply (rank_le_aligned_pos m1 m2 e1 e2 e0 false false V1 V2 L1 L2).
      lia.
Qed.

Lemma rank_sign (s : bool) (m : positive) (e : Z) :
  valid_binary (S754_finite s m e) = true ->
  if s then rank (S754_finite s m e) < 0 else 0 < rank (S754_finite s m e).
Proof.
  intros V. destruct (valid_finite s m e V) as (B1 & _).
  cbn [rank]. cbn zeta.
  change (2 ^ (prec - 1)) with 4503599627370496 in *.
  change emin with (-1074) in *.
  destruct s; lia.
Qed.

Lemma SFleb_rank (x y : spec_float) :
  valid_binary x = true -> valid_binary y = true ->
  SFleb x y = true -> rank x <= rank y.
Proof.
  intros Vx Vy L. pose proof rank_infinity_pos as RI.
  pose proof (finite_rank x Vx) as Fx. pose proof (finite_rank y Vy) as Fy.
  unfold SFleb, SFcompare in L.
  destruct x as [sx | sx | | sx mx ex]; try discriminate;
    destruct y as [sy | sy | | sy my ey]; try discriminate;
    cbn [sf_finite] in Fx, Fy;
    try specialize (Fx eq_refl); try specialize (Fy eq_refl);
    try (pose proof (rank_sign sx mx ex Vx) as Sx);
    try (pose proof (rank_sign sy my ey Vy) as Sy).
  all: try (destruct sx); try (destruct sy); try discriminate;
    try (cbn [rank] in *; lia).
  all: destruct (valid_finite _ mx ex Vx) as (A1 & A2 & A3 & _);
    destruct (valid_finite _ my ey Vy) as (B1 & B2 & B3 & _);
    cbn [rank]; cbn zeta;
    change (2 ^ (prec - 1)) with 4503599627370496 in *;
    change emin with (-1074) in *;
    pose proof (Z.compare_spec ex ey) as CE;
    pose proof (Pos.compare_spec mx my) as CM;
    change (Pos.compare_cont Eq mx my) with (mx ?= my)%positive in L;
    destruct (ex ?= ey); inversion CE; try discriminate;
    try (destruct (mx ?= my)%positive; inversion CM; try discriminate);
    try (specialize (A3 ltac:(lia))); try (specialize (B3 ltac:(lia)));
    subst; lia.
Qed.

End ValidFloats.

Section Operations.

Local Open Scope Z_scope.

Lemma shl_align_fst (m : positive) (e ez : Z) :
  ez <= e -> Z.pos (fst (shl_align m e ez)) = Z.pos m * 2 ^ (e - ez).
Proof.
  intros L. destruct (shl_align_spec m e ez) as (k & Hk & -> & Ek).
  cbn [fst]. assert (0 < 2 ^ k) by (apply Z.pow_pos_nonneg; lia).
  rewrite Z2Pos.id by nia. f_equal. f_equal. lia.
Qed.

Lemma round_rank_aligned (x : spec_float) (e0 : Z) :
  valid_binary x = true -> sf_finite x = true -> e0 <= sf_exp x ->
  round_rank (aligned x e0) e0 = rank x.
Proof.
  intros V F L. unfold aligned.
  now rewrite round_rank_shift, round_rank_valid.
Qed.

Lemma valid_opp (x : spec_float) :
  valid_binary x = true -> valid_binary (SFopp x) = true.
Proof. now destruct x. Qed.

Lemma rank_opp (x : spec_float) : rank (SFopp x) = - rank x.
Proof.
  destruct x as [s | s | | s m e]; cbn [SFopp rank]; try reflexivity;
    destruct s; cbn [negb]; cbn zeta; lia.
Qed.

Lemma aligned_opp (x : spec_float) (e0 : Z) :
  aligned (SFopp x) e0 = - aligned x e0.
Proof.
  destruct x as [s | s | | s m e]; unfold aligned; cbn [SFopp sf_num sf_exp];
    try lia.
  destruct s; cbn [negb cond_Zopp]; lia.
Qed.

(** The difference of two finite floats is their exact difference,
    rounded. *)
Lemma SFsub_rank (x y : spec_float) (e0 : Z) :
  valid_binary x = true -> valid_binary y = true ->
  sf_finite x = true -> sf_finite y = true ->
  e0 <= sf_exp x -> e0 <= sf_exp y ->
  SF64sub x y <> S754_nan
  /\ rank (SF64sub x y) = round_rank (aligned x e0 - aligned y e0) e0.
Proof.
  intros Vx Vy Fx Fy Lx Ly.
  destruct x as [sx | sx | | sx mx ex]; try discriminate;
    destruct y as [sy | sy | | sy my ey]; try discriminate.
  - split; [now destruct sx, sy |].
    replace (aligned (S754_zero sx) e0 - aligned (S754_zero sy) e0)
      with 0 by (unfold aligned; cbn [sf_num]; lia).
    now destruct sx, sy.
  - split; [discriminate |].
    change (SF64sub (S754_zero sx) (S754_finite sy my ey))
      with (SFopp (S754_finite sy my ey)).
    replace (aligned (S754_zero sx) e0 - aligned (S754_finite sy my ey) e0)
      with (aligned (SFopp (S754_finite sy my ey)) e0)
      by (rewrite aligned_opp; unfold aligned at 2; cbn [sf_num]; lia).
    symmetry. apply round_rank_aligned; [now apply valid_opp | easy | easy].
  - split; [discriminate |].
    change (SF64sub (S754_finite sx mx ex) (S754_zero sy))
      with (S754_finite sx mx ex).
    replace (aligned (S754_finite sx mx ex) e0 - aligned (S754_zero sy) e0)
      with (aligned (S754_finite sx mx ex) e0)
      by (unfold aligned at 3; cbn [sf_num]; lia).
    symmetry. now apply round_rank_aligned.
  - cbn [sf_exp] in Lx, Ly. unfold SF64sub, SFsub.
    split; [apply binary_normalize_not_nan |].
    rewrite !shl_align_fst by lia.
    fold (round_rank
            (cond_Zopp sx (Z.pos mx * 2 ^ (ex - Z.min ex ey))
             - cond_Zopp sy (Z.pos my * 2 ^ (ey - Z.min ex ey)))
            (Z.min ex ey)).
    rewrite <- (round_rank_shift _ (Z.min ex ey) e0) by lia.
    f_equal. rewrite !aligned_finite.
    rewrite Z.mul_sub_distr_r.
    assert (forall s a b, cond_Zopp s a * b = cond_Zopp s (a * b)) as C
      by (intros [] a b; cbn; lia).
    rewrite !C, !scaled_twice by lia. reflexivity.
Qed.

Lemma common_exponent (x1 x2 y : spec_float) :
  exists e0, e0 <= sf_exp x1 /\ e0 <= sf_exp x2 /\ e0 <= sf_exp y.
Proof.
  exists (Z.min (sf_exp x1) (Z.min (sf_exp x2) (sf_exp y))). lia.
Qed.

(** Subtraction is monotone in its first argument and antitone in its
    second. *)
Lemma SFsub_mono_l (x1 x2 y : spec_float) :
  valid_binary x1 = true -> valid_binary x2 = true ->
  valid_binary y = true ->
  sf_finite x1 = true -> sf_finite x2 = true -> sf_finite y = true ->
  rank x1 <= rank x2 ->
  rank (SF64sub x1 y) <= rank (SF64sub x2 y).
Proof.
  intros V1 V2 Vy F1 F2 Fy R.
  destruct (common_exponent x1 x2 y) as (e0 & L1 & L2 & Ly).
  rewrite (proj2 (SFsub_rank x1 y e0 V1 Vy F1 Fy L1 Ly)).
  rewrite (proj2 (SFsub_rank x2 y e0 V2 Vy F2 Fy L2 Ly)).
  apply (round_rank_mono _ _ _ _ e0); try lia.
  rewrite Z.sub_diag, Z.pow_0_r, !Z.mul_1_r.
  pose proof (rank_le_aligned x1 x2 e0 V1 V2 F1 F2 L1 L2 R). lia.
Qed.

Lemma SFsub_mono_r (x1 x2 y : spec_float) :
  valid_binary x1 = true -> valid_binary x2 = true ->
  valid_binary y = true ->
  sf_finite x1 = true -> sf_finite x2 = true -> sf_finite y = true ->
  rank x1 <= rank x2 ->
  rank (SF64sub y x2) <= rank (SF64sub y x1).
Proof.
  intros V1 V2 Vy F1 F2 Fy R.
  destruct (common_exponent x1 x2 y) as (e0 & L1 & L2 & Ly).
  rewrite (proj2 (SFsub_rank y x1 e0 Vy V1 Fy F1 Ly L1)).
  rewrite (proj2 (SFsub_rank y x2 e0 Vy V2 Fy F2 Ly L2)).
  apply (round_rank_mono _ _ _ _ e0); try lia.
  rewrite Z.sub_diag, Z.pow_0_r, !Z.mul_1_r.
  pose proof (rank_le_aligned x1 x2 e0 V1 V2 F1 F2 L1 L2 R). lia.
Qed.

Lemma digits2_pos_mul (mx my : positive) :
  Z.pos (digits2_pos mx) + Z.pos (digits2_pos my) - 1
  <= Z.pos (digits2_pos (mx * my)).
Proof.
  pose proof (digits2_pos_bounds mx) as Bx.
  pose proof (digits2_pos_bounds my) as By.
  change (Z.pos (digits2_pos (mx * my))) with (Zdigits2 (Z.pos (mx * my))).
  apply Zdigits2_ge_of_le; [| lia].
  replace (Z.pos (digits2_pos mx) + Z.pos (digits2_pos my) - 1 - 1)
    with ((Z.pos (digits2_pos mx) - 1) + (Z.pos (digits2_pos my) - 1))
    by lia.
  rewrite Z.pow_add_r by lia. rewrite Pos2Z.inj_mul.
  apply Z.mul_le_mono_nonneg; lia.
Qed.

(** The product of two finite floats is their exact product, rounded. *)
Lemma SFmul_rank (sx sy : bool) (mx my : positive) (ex ey : Z) :
  valid_binary (S754_finite sx mx ex) = true ->
  valid_binary (S754_finite sy my ey) = true ->
  ex + ey <= fexp prec emax (Zdigits2 (Z.pos mx * Z.pos my / 1) + (ex + ey))
  /\ SF64mul (S754_finite sx mx ex) (S754_finite sy my ey) <> S754_nan
  /\ rank (SF64mul (S754_finite sx mx ex) (S754_finite sy my ey))
     = cond_Zopp (xorb sx sy)
         (Z.min (raw_rank (Z.pos mx * Z.pos my) 1 (ex + ey)) rank_infinity).
Proof.
  intros Vx Vy.
  destruct (valid_finite sx mx ex Vx) as (A1 & A2 & A3 & A4).
  destruct (valid_finite sy my ey Vy) as (B1 & B2 & B3 & B4).
  assert (Le : ex + ey
               <= fexp prec emax
                    (Zdigits2 (Z.pos mx * Z.pos my / 1) + (ex + ey))).
  { rewrite Z.div_1_r. rewrite <- Pos2Z.inj_mul. cbn [Zdigits2].
    pose proof (digits2_pos_mul mx my) as D.
    unfold fexp, SpecFloat.emin, prec, emax in *. lia. }
  split; [exact Le |].
  unfold SF64mul, SFmul. rewrite Pos2Z.inj_mul.
  apply binary_round_aux_rank;
    [lia | lia | apply located_exact | exact Le].
Qed.

(** Multiplication by a positive float is monotone on the floats that
    are not negative. *)
Lemma SFmul_mono (x1 x2 y : spec_float) :
  valid_binary x1 = true -> valid_binary x2 = true ->
  valid_binary y = true ->
  sf_finite x1 = true -> sf_finite x2 = true -> sf_finite y = true ->
  0 < rank y ->
  0 <= rank x1 -> rank x1 <= rank x2 ->
  SF64mul x1 y <> S754_nan /\ SF64mul x2 y <> S754_nan
  /\ 0 <= rank (SF64mul x1 y) <= rank (SF64mul x2 y).
Proof.
  intros V1 V2 Vy F1 F2 Fy Py P1 R.
  pose proof rank_infinity_pos as RI.
  destruct y as [sy | sy | | sy my ey]; try discriminate.
  pose proof (rank_sign sy my ey Vy) as Sy.
  destruct sy; [lia |]. clear Sy.
  assert (Pos : forall s m e,
             valid_binary (S754_finite s m e) = true ->
             0 <= rank (S754_finite s m e) -> s = false).
  { intros s m e V P. pose proof (rank_sign s m e V) as S.
    destruct s; [lia | reflexivity]. }
  assert (Zero : forall s, rank (SF64mul (S754_zero s) (S754_finite false my ey)) = 0)
    by reflexivity.
  assert (Fin : forall m e,
             valid_binary (S754_finite false m e) = true ->
             SF64mul (S754_finite false m e) (S754_finite false my ey)
             <> S754_nan
             /\ 0 <= rank (SF64mul (S754_finite false m e)
                                   (S754_finite false my ey))).
  { intros m e V. destruct (SFmul_rank false false m my e ey V Vy)
      as (Le & NN & ->). split; [exact NN |]. cbn [xorb cond_Zopp].
    pose proof (raw_rank_nonneg (Z.pos m * Z.pos my) 1 (e + ey)
                  ltac:(lia) ltac:(lia) Le). lia. }
  destruct x1 as [s1 | s1 | | s1 m1 e1]; try discriminate;
    destruct x2 as [s2 | s2 | | s2 m2 e2]; try discriminate.
  - repeat split; try discriminate; rewrite ?Zero; lia.
  - assert (s2 = false) as -> by (apply (Pos s2 m2 e2 V2); cbn in R |- *; lia).
    destruct (Fin m2 e2 V2) as [NN P2].
    repeat split; try discriminate; try assumption; rewrite ?Zero; lia.
  - assert (s1 = false) as -> by now apply (Pos s1 m1 e1 V1).
    pose proof (rank_sign false m1 e1 V1) as S1. cbn in R, S1. lia.
  - assert (s1 = false) as -> by now apply (Pos s1 m1 e1 V1).
    assert (s2 = false) as -> by (apply (Pos s2 m2 e2 V2); lia).
    destruct (Fin m1 e1 V1) as [NN1 P1'].
    destruct (Fin m2 e2 V2) as [NN2 P2'].
    repeat split; try assumption.
    destruct (SFmul_rank false false m1 my e1 ey V1 Vy) as (Le1 & _ & ->).
    destruct (SFmul_rank false false m2 my e2 ey V2 Vy) as (Le2 & _ & ->).
    cbn [xorb cond_Zopp]. apply Z.min_le_compat_r.
    pose proof (rank_le_aligned _ _ (Z.min e1 e2) V1 V2 F1 F2
                  ltac:(cbn; lia) ltac:(cbn; lia) R) as A.
    rewrite !aligned_finite in A. cbn [cond_Zopp] in A.
    apply (raw_rank_mono _ _ 1 _ _ (Z.min e1 e2 + ey)); try lia;
      try assumption.
    replace (e1 + ey - (Z.min e1 e2 + ey)) with (e1 - Z.min e1 e2) by lia.
    replace (e2 + ey - (Z.min e1 e2 + ey)) with (e2 - Z.min e1 e2) by lia.
    nia.
Qed.

Lemma new_location_located (q D r : Z) :
  0 < D -> 0 <= r < D ->
  shr_record_of_loc q (new_location D r)
  = {| shr_m := q;
       shr_r := (D <=? 2 * r);
       shr_s := negb (r =? 0) && negb (2 * r =? D) |}.
Proof.
  intros HD Hr. unfold new_location, new_location_even, new_location_odd.
  destruct (r =? 0) eqn:R0.
  - apply Z.eqb_eq in R0. subst r.
    assert ((D <=? 2 * 0) = false) as -> by (apply Z.leb_gt; lia).
    now destruct (Z.even D).
  - assert (R0' := R0). apply Z.eqb_neq in R0. cbn [negb andb].
    destruct (Z.even D) eqn:Ev; rewrite R0'.
    + pose proof (Z.compare_spec (2 * r) D) as C.
      destruct (2 * r ?= D); inversion C; cbn [shr_record_of_loc].
      * assert ((D <=? 2 * r) = true) as -> by (apply Z.leb_le; lia).
        assert ((2 * r =? D) = true) as -> by (apply Z.eqb_eq; lia).
        reflexivity.
      * assert ((D <=? 2 * r) = false) as -> by (apply Z.leb_gt; lia).
        assert ((2 * r =? D) = false) as -> by (apply Z.eqb_neq; lia).
        reflexivity.
      * assert ((D <=? 2 * r) = true) as -> by (apply Z.leb_le; lia).
        assert ((2 * r =? D) = false) as -> by (apply Z.eqb_neq; lia).
        reflexivity.
    + assert (ND : 2 * r <> D).
      { intros <-. rewrite Z.even_mul in Ev. discriminate. }
      pose proof (Z.compare_spec (2 * r + 1) D) as C.
      destruct (2 * r + 1 ?= D); inversion C; cbn [shr_record_of_loc].
      * assert ((D <=? 2 * r) = false) as -> by (apply Z.leb_gt; lia).
        assert ((2 * r =? D) = false) as -> by (apply Z.eqb_neq; lia).
        reflexivity.
      * assert ((D <=? 2 * r) = false) as -> by (apply Z.leb_gt; lia).
        assert ((2 * r =? D) = false) as -> by (apply Z.eqb_neq; lia).
        reflexivity.
      * assert ((D <=? 2 * r) = true) as -> by (apply Z.leb_le; lia).
        assert ((2 * r =? D) = false) as -> by (apply Z.eqb_neq; lia).
        reflexivity.
Qed.

(** What the division hands to the rounding: the quotient of
    [mx * 2 ^ s] by [my], located, at an exponent low enough. *)
Lemma SFdiv_core_binary_spec (mx my : positive) (ex ey : Z) :
  exists e' mz lz,
    e' <= ex - ey
    /\ SFdiv_core_binary prec emax (Z.pos mx) ex (Z.pos my) ey
       = (mz, e', lz)
    /\ shr_record_of_loc mz lz
       = located (Z.pos mx * 2 ^ (ex - ey - e')) (Z.pos my)
    /\ e' <= fexp prec emax
               (Zdigits2 (Z.pos mx * 2 ^ (ex - ey - e') / Z.pos my) + e').
Proof.
  unfold SFdiv_core_binary.
  set (dx := Zdigits2 (Z.pos mx)). set (dy := Zdigits2 (Z.pos my)).
  set (e' := Z.min (fexp prec emax (dx + ex - (dy + ey))) (ex - ey)).
  assert (Le : e' <= ex - ey) by (subst e'; lia).
  set (s := ex - ey - e'). assert (Hs : 0 <= s) by (subst s; lia).
  assert (P : 0 < 2 ^ s) by (apply Z.pow_pos_nonneg; lia).
  set (N := Z.pos mx * 2 ^ s).
  assert (HN : 0 < N) by (subst N; nia).
  assert (Hm : match s with
               | 0 => Z.pos mx
               | Z.pos _ => Z.shiftl (Z.pos mx) s
               | Z.neg _ => 0
               end = N).
  { subst N. destruct s as [| p | p] eqn:Es; [| | lia].
    - now rewrite Z.pow_0_r, Z.mul_1_r.
    - now rewrite Z.shiftl_mul_pow2 by lia. }
  rewrite Hm.
  pose proof (Z.mod_pos_bound N (Z.pos my) ltac:(lia)) as B.
  assert (DE : Z.div_eucl N (Z.pos my) = (N / Z.pos my, N mod Z.pos my)).
  { unfold Z.div, Z.modulo. now destruct (Z.div_eucl N (Z.pos my)). }
  rewrite DE.
  exists e', (N / Z.pos my), (new_location (Z.pos my) (N mod Z.pos my)).
  split; [exact Le |]. split; [reflexivity |]. split.
  - rewrite new_location_located by lia. reflexivity.
  - pose proof (digits2_pos_bounds mx) as Bx.
    pose proof (digits2_pos_bounds my) as By.
    change (Z.pos (digits2_pos mx)) with dx in Bx.
    change (Z.pos (digits2_pos my)) with dy in By.
    assert (Hdx : 1 <= dx) by (subst dx; cbn; lia).
    assert (Hdy : 1 <= dy) by (subst dy; cbn; lia).
    destruct (Z_le_gt_dec e' (-1074)) as [Small | Big].
    + unfold fexp, SpecFloat.emin, prec, emax. lia.
    + assert (Hs' : dy - dx + 53 <= s).
      { subst s e'. unfold fexp, SpecFloat.emin, prec, emax in *. lia. }
      assert (Q : 2 ^ 52 <= N / Z.pos my).
      { apply Z.div_le_lower_bound; [lia |].
        assert (2 ^ (dy + 52) <= 2 ^ (dx - 1 + s))
          by (apply Z.pow_le_mono_r; lia).
        rewrite !Z.pow_add_r in H by lia.
        subst N. set (A := 2 ^ (dx - 1)) in *.
        assert (A * 2 ^ s <= Z.pos mx * 2 ^ s)
          by (apply Z.mul_le_mono_nonneg_r; lia).
        assert (Z.pos my * 2 ^ 52 <= 2 ^ dy * 2 ^ 52)
          by (apply Z.mul_le_mono_nonneg_r; lia).
        lia. }
      assert (53 <= Zdigits2 (N / Z.pos my)).
      { apply Zdigits2_ge_of_le; [exact Q |].
        assert (0 < 2 ^ 52) by reflexivity. lia. }
      change (Z.pos mx * 2 ^ (ex - ey - e')) with N.
      unfold fexp, SpecFloat.emin, prec, emax. lia.
Qed.

(** The quotient of two finite floats is their exact quotient,
    rounded. *)
Lemma SFdiv_rank (sx sy : bool) (mx my : positive) (ex ey : Z) :
  exists e',
    e' <= ex - ey
    /\ e' <= fexp prec emax
               (Zdigits2 (Z.pos mx * 2 ^ (ex - ey - e') / Z.pos my) + e')
    /\ SF64div (S754_finite sx mx ex) (S754_finite sy my ey) <> S754_nan
    /\ rank (SF64div (S754_finite sx mx ex) (S754_finite sy my ey))
       = cond_Zopp (xorb sx sy)
           (Z.min (raw_rank (Z.pos mx * 2 ^ (ex - ey - e')) (Z.pos my) e')
                  rank_infinity).
Proof.
  destruct (SFdiv_core_binary_spec mx my ex ey)
    as (e' & mz & lz & Le & Eq & Loc & Pre).
  exists e'. split; [exact Le |]. split; [exact Pre |].
  unfold SF64div, SFdiv. rewrite Eq.
  assert (0 < 2 ^ (ex - ey - e')) by (apply Z.pow_pos_nonneg; lia).
  apply binary_round_aux_rank; [nia | lia | exact Loc | exact Pre].
Qed.

(** Division by a positive float is monotone on the positive floats. *)
Lemma SFdiv_mono (m1 m2 my : positive) (e1 e2 ey : Z) :
  valid_binary (S754_finite false m1 e1) = true ->
  valid_binary (S754_finite false m2 e2) = true ->
  rank (S754_finite false m1 e1) <= rank (S754_finite false m2 e2) ->
  SF64div (S754_finite false m1 e1) (S754_finite false my ey) <> S754_nan
  /\ SF64div (S754_finite false m2 e2) (S754_finite false my ey)
     <> S754_nan
  /\ 0 <= rank (SF64div (S754_finite false m1 e1)
                        (S754_finite false my ey))
     <= rank (SF64div (S754_finite false m2 e2)
                      (S754_finite false my ey)).
Proof.
  intros V1 V2 R. pose proof rank_infinity_pos as RI.
  destruct (SFdiv_rank false false m1 my e1 ey)
    as (e1' & L1 & P1 & N1 & ->).
  destruct (SFdiv_rank false false m2 my e2 ey)
    as (e2' & L2 & P2 & N2 & ->).
  cbn [xorb cond_Zopp].
  assert (A1 : 0 < 2 ^ (e1 - ey - e1')) by (apply Z.pow_pos_nonneg; lia).
  assert (A2 : 0 < 2 ^ (e2 - ey - e2')) by (apply Z.pow_pos_nonneg; lia).
  split; [exact N1 |]. split; [exact N2 |]. split.
  - pose proof (raw_rank_nonneg (Z.pos m1 * 2 ^ (e1 - ey - e1'))
                  (Z.pos my) e1' ltac:(nia) ltac:(lia) P1). lia.
  - apply Z.min_le_compat_r.
    set (e0 := Z.min e1' e2').
    pose proof (rank_le_aligned _ _ (e0 + ey) V1 V2 eq_refl eq_refl
                  ltac:(cbn; lia) ltac:(cbn; lia) R) as A.
    rewrite !aligned_finite in A. cbn [cond_Zopp] in A.
    apply (raw_rank_mono _ _ _ _ _ e0);
      [nia | lia | lia | lia | | assumption | assumption].
    rewrite <- !Z.mul_assoc, <- !Z.pow_add_r by lia.
    replace (e1 - ey - e1' + (e1' - e0)) with (e1 - (e0 + ey)) by lia.
    replace (e2 - ey - e2' + (e2' - e0)) with (e2 - (e0 + ey)) by lia.
    exact A.
Qed.

End Operations.

Section PrimitiveFloats.

Local Open Scope Z_scope.

Lemma int_finite (x : float) (e0 : Z) :
  sf_finite (Prim2SF x) = true ->
  e0 <= sf_exp (Prim2SF x) -> e0 <= 0 ->
  Binary64.int x = Some (Z.quot (aligned (Prim2SF x) e0) (2 ^ (- e0))).
Proof.
  unfold Binary64.int. intros F L L0.
  destruct (Prim2SF x) as [s | s | | s m e]; try discriminate.
  - unfold aligned. cbn [sf_num]. now rewrite Z.mul_0_l, Z.quot_0_l
      by (apply Z.pow_nonzero; lia).
  - cbn [sf_exp] in L. rewrite aligned_finite. f_equal.
    assert (P0 : 0 < 2 ^ (- e0)) by (apply Z.pow_pos_nonneg; lia).
    assert (P1 : 0 < 2 ^ (e - e0)) by (apply Z.pow_pos_nonneg; lia).
    assert (M : match e with
                | Z.neg p => Z.shiftr (Z.pos m) (Z.pos p)
                | _ => Z.shiftl (Z.pos m) e
                end = Z.pos m * 2 ^ (e - e0) / 2 ^ (- e0)).
    { destruct e as [| p | p].
      - rewrite Z.shiftl_0_r. cbn [Z.sub Z.add Z.opp].
        replace (0 - e0) with (- e0) by lia.
        now rewrite Z.div_mul by lia.
      - rewrite Z.shiftl_mul_pow2 by lia.
        replace (Z.pos p - e0) with (Z.pos p + - e0) by lia.
        rewrite Z.pow_add_r by lia.
        now rewrite Z.mul_assoc, Z.div_mul by lia.
      - rewrite Z.shiftr_div_pow2 by lia.
        replace (- e0) with (Z.pos p + (Z.neg p - e0)) by lia.
        rewrite Z.pow_add_r by lia.
        rewrite Z.div_mul_cancel_r; [reflexivity | | lia].
        apply Z.pow_nonzero; lia. }
    rewrite M.
    assert (0 <= Z.pos m * 2 ^ (e - e0)) by nia.
    destruct s; cbn [cond_Zopp].
    + rewrite Z.quot_opp_l by lia. f_equal.
      now rewrite Z.quot_div_nonneg by lia.
    + now rewrite Z.quot_div_nonneg by lia.
Qed.

(** [int] is monotone on the finite floats, and raises on no finite
    float. *)
Lemma int_mono (x1 x2 : float) :
  sf_finite (Prim2SF x1) = true -> sf_finite (Prim2SF x2) = true ->
  rank (Prim2SF x1) <= rank (Prim2SF x2) ->
  exists z1 z2,
    Binary64.int x1 = Some z1 /\ Binary64.int x2 = Some z2 /\ z1 <= z2.
Proof.
  intros F1 F2 R.
  set (e0 := Z.min 0 (Z.min (sf_exp (Prim2SF x1)) (sf_exp (Prim2SF x2)))).
  rewrite (int_finite x1 e0 F1) by (subst e0; lia).
  rewrite (int_finite x2 e0 F2) by (subst e0; lia).
  eexists. eexists. split; [reflexivity |]. split; [reflexivity |].
  apply Z.quot_le_mono; [apply Z.pow_pos_nonneg; subst e0; lia |].
  apply rank_le_aligned; try assumption; try apply Prim2SF_valid;
    subst e0; lia.
Qed.

Lemma sub_mono_l (x1 x2 y : float) :
  sf_finite (Prim2SF x1) = true -> sf_finite (Prim2SF x2) = true ->
  sf_finite (Prim2SF y) = true ->
  rank (Prim2SF x1) <= rank (Prim2SF x2) ->
  rank (Prim2SF (x1 - y)) <= rank (Prim2SF (x2 - y)).
Proof.
  intros F1 F2 Fy R. rewrite !FloatAxioms.sub_spec.
  apply SFsub_mono_l; try assumption; apply Prim2SF_valid.
Qed.

Lemma sub_mono_r (x1 x2 y : float) :
  sf_finite (Prim2SF x1) = true -> sf_finite (Prim2SF x2) = true ->
  sf_finite (Prim2SF y) = true ->
  rank (Prim2SF x1) <= rank (Prim2SF x2) ->
  rank (Prim2SF (y - x2)) <= rank (Prim2SF (y - x1)).
Proof.
  intros F1 F2 Fy R. rewrite !FloatAxioms.sub_spec.
  apply SFsub_mono_r; try assumption; apply Prim2SF_valid.
Qed.

Lemma sub_not_nan (x y : float) :
  sf_finite (Prim2SF x) = true -> sf_finite (Prim2SF y) = true ->
  Prim2SF (x - y) <> S754_nan.
Proof.
  intros Fx Fy. rewrite FloatAxioms.sub_spec.
  apply (SFsub_rank _ _ (Z.min (sf_exp (Prim2SF x)) (sf_exp (Prim2SF y))));
    try assumption; try apply Prim2SF_valid; lia.
Qed.

Lemma leb_rank (x y : float) :
  (x <=? y)%float = true -> rank (Prim2SF x) <= rank (Prim2SF y).
Proof.
  rewrite FloatAxioms.leb_spec. apply SFleb_rank; apply Prim2SF_valid.
Qed.

Lemma leb_not_nan (x y : float) :
  (x <=? y)%float = true ->
  Prim2SF x <> S754_nan /\ Prim2SF y <> S754_nan.
Proof.
  rewrite FloatAxioms.leb_spec. unfold SFleb, SFcompare.
  destruct (Prim2SF x), (Prim2SF y); try discriminate; split; discriminate.
Qed.

Lemma float_rank_bounds (x : float) :
  - rank_infinity <= rank (Prim2SF x) <= rank_infinity.
Proof. apply rank_bounds, Prim2SF_valid. Qed.

Lemma rank_not_positive (x : float) :
  rank (Prim2SF x) <= 0 -> not_positive (Prim2SF x).
Proof.
  intros R. pose proof (Prim2SF_valid x) as V.
  pose proof rank_infinity_pos.
  destruct (Prim2SF x) as [s | s | | s m e]; cbn [not_positive]; auto.
  - cbn in R. destruct s; [reflexivity | lia].
  - pose proof (rank_sign s m e V). destruct s; [reflexivity | lia].
Qed.

Lemma rank_positive_finite (x : float) :
  0 < rank (Prim2SF x) -> rank (Prim2SF x) < rank_infinity ->
  exists m e, Prim2SF x = S754_finite false m e.
Proof.
  intros P I. pose proof (Prim2SF_valid x) as V.
  destruct (Prim2SF x) as [s | s | | s m e]; cbn [rank] in P, I; try lia.
  - destruct s; lia.
  - pose proof (rank_sign s m e V) as S. cbn [rank] in S.
    destruct s; [cbn zeta in *; lia | now exists m, e].
Qed.

Lemma sub_zero_rank (x : float) :
  sf_finite (Prim2SF x) = true ->
  rank (Prim2SF (x - 0)) = rank (Prim2SF x).
Proof.
  intros F. rewrite FloatAxioms.sub_spec.
  change (Prim2SF 0) with (S754_zero false).
  destruct (Prim2SF x) as [s | s | | s m e]; try discriminate;
    [now destruct s | reflexivity].
Qed.

End PrimitiveFloats.

(** *** The penalty terms and the score *)

Section Penalty.

Local Open Scope Z_scope.

Variables a w : float.
Variables (ma mw : positive) (ea ew : Z).
Hypothesis Ha : Prim2SF a = S754_finite false ma ea.
Hypothesis Hw : Prim2SF w = S754_finite false mw ew.
Hypothesis Hunit : rank (Prim2SF (a / a)) < rank_infinity.

Lemma zero_times_weight : Prim2SF (0 * w) = S754_zero false.
Proof. rewrite FloatAxioms.mul_spec, Hw. reflexivity. Qed.

(** No penalty where [a - x] is not positive. *)
Lemma penalty_none (x : float) :
  rank (Prim2SF (a - x)) <= 0 ->
  Binary64.max 0 ((a - x) / a) = 0%float
  /\ Prim2SF (penalty a w x) = S754_zero false.
Proof.
  intros R.
  assert (M : Binary64.max 0 ((a - x) / a) = 0%float).
  { unfold Binary64.max.
    rewrite ltb_zero_not_positive; [reflexivity |].
    apply (div_not_positive _ a ma ea Ha).
    now apply rank_not_positive. }
  split; [exact M |]. unfold penalty. rewrite M. apply zero_times_weight.
Qed.

Lemma max_zero_finite (b : float) :
  sf_finite (Prim2SF b) = true -> 0 <= rank (Prim2SF b) ->
  sf_finite (Prim2SF (Binary64.max 0 b)) = true
  /\ rank (Prim2SF (Binary64.max 0 b)) = rank (Prim2SF b).
Proof.
  intros F R. unfold Binary64.max.
  destruct (0 <? b)%float eqn:L; [now split |].
  split; [reflexivity |].
  rewrite FloatAxioms.ltb_spec in L.
  change (Prim2SF 0) with (S754_zero false) in *.
  pose proof (Prim2SF_valid b) as V.
  destruct (Prim2SF b) as [s | s | | s m e]; try discriminate;
    try reflexivity.
  pose proof (rank_sign s m e V) as S.
  destruct s; [lia | discriminate].
Qed.

(** The factor [max(0, (a - x) / a)] is finite, not negative, and
    antitone in [x] on the finite floats that are not negative. *)
Lemma factor_antitone (x1 x2 : float) :
  sf_finite (Prim2SF x1) = true -> sf_finite (Prim2SF x2) = true ->
  0 <= rank (Prim2SF x1) -> rank (Prim2SF x1) <= rank (Prim2SF x2) ->
  sf_finite (Prim2SF (Binary64.max 0 ((a - x1) / a))) = true
  /\ sf_finite (Prim2SF (Binary64.max 0 ((a - x2) / a))) = true
  /\ 0 <= rank (Prim2SF (Binary64.max 0 ((a - x2) / a)))
     <= rank (Prim2SF (Binary64.max 0 ((a - x1) / a))).
Proof.
  intros F1 F2 P R.
  assert (Fa : sf_finite (Prim2SF a) = true) by now rewrite Ha.
  assert (F0 : sf_finite (Prim2SF 0) = true) by reflexivity.
  pose proof (sub_mono_r x1 x2 a F1 F2 Fa R) as D21.
  pose proof (sub_mono_r 0 x1 a F0 F1 Fa P) as D1a.
  rewrite (sub_zero_rank a Fa) in D1a.
  pose proof (finite_rank _ (Prim2SF_valid a) Fa) as Ia.
  assert (Pos : forall x,
             0 < rank (Prim2SF (a - x)) ->
             rank (Prim2SF (a - x)) <= rank (Prim2SF a) ->
             exists m e,
               Prim2SF (a - x) = S754_finite false m e
               /\ sf_finite (Prim2SF ((a - x) / a)) = true
               /\ 0 <= rank (Prim2SF ((a - x) / a))).
  { intros x Px Lx.
    destruct (rank_positive_finite (a - x) Px ltac:(lia)) as (m & e & E).
    exists m, e. split; [exact E |].
    pose proof (Prim2SF_valid (a - x)) as V. rewrite E in V.
    pose proof (Prim2SF_valid a) as Va. rewrite Ha in Va.
    rewrite E, Ha in Lx.
    destruct (SFdiv_mono m ma ma e ea ea V Va Lx) as (N1 & _ & B1 & B2).
    rewrite <- E, <- Ha, <- !FloatAxioms.div_spec in *.
    split; [| lia].
    apply rank_finite; [exact N1 |].
    pose proof rank_infinity_pos. lia. }
  destruct (Z_le_gt_dec (rank (Prim2SF (a - x1))) 0) as [Z1 | P1].
  - destruct (penalty_none x1 Z1) as [-> _].
    destruct (penalty_none x2 ltac:(lia)) as [-> _].
    repeat split; reflexivity.
  - destruct (Pos x1 ltac:(lia) D1a) as (m1 & e1 & E1 & Fb1 & Pb1).
    destruct (max_zero_finite _ Fb1 Pb1) as [Fm1 Rm1].
    destruct (Z_le_gt_dec (rank (Prim2SF (a - x2))) 0) as [Z2 | P2].
    + destruct (penalty_none x2 Z2) as [-> _].
      split; [exact Fm1 |]. split; [reflexivity |].
      change (rank (Prim2SF 0)) with 0. lia.
    + destruct (Pos x2 ltac:(lia) ltac:(lia)) as (m2 & e2 & E2 & Fb2 & Pb2).
      destruct (max_zero_finite _ Fb2 Pb2) as [Fm2 Rm2].
      split; [exact Fm1 |]. split; [exact Fm2 |].
      rewrite Rm1, Rm2. split; [exact Pb2 |].
      pose proof (Prim2SF_valid (a - x1)) as V1. rewrite E1 in V1.
      pose proof (Prim2SF_valid (a - x2)) as V2. rewrite E2 in V2.
      rewrite E1, E2 in D21.
      destruct (SFdiv_mono m2 m1 ma e2 e1 ea V2 V1 D21) as (_ & _ & _ & B).
      rewrite !FloatAxioms.div_spec, E1, E2, Ha. exact B.
Qed.

(** So is the penalty. *)
Lemma penalty_antitone_finite (x1 x2 : float) :
  sf_finite (Prim2SF x1) = true -> sf_finite (Prim2SF x2) = true ->
  0 <= rank (Prim2SF x1) -> rank (Prim2SF x1) <= rank (Prim2SF x2) ->
  Prim2SF (penalty a w x1) <> S754_nan
  /\ Prim2SF (penalty a w x2) <> S754_nan
  /\ 0 <= rank (Prim2SF (penalty a w x2))
     <= rank (Prim2SF (penalty a w x1)).
Proof.
  intros F1 F2 P R.
  destruct (factor_antitone x1 x2 F1 F2 P R) as (Fm1 & Fm2 & P2 & R21).
  unfold penalty. rewrite !FloatAxioms.mul_spec.
  pose proof (Prim2SF_valid w) as Vw.
  assert (Fw : sf_finite (Prim2SF w) = true) by now rewrite Hw.
  assert (Pw : 0 < rank (Prim2SF w)).
  { pose proof (rank_sign false mw ew) as S. rewrite Hw in *.
    now apply S. }
  destruct (SFmul_mono _ _ (Prim2SF w)
              (Prim2SF_valid _) (Prim2SF_valid _) Vw Fm2 Fm1 Fw Pw P2 R21)
    as (N2 & N1 & B).
  repeat split; try assumption; lia.
Qed.

(** Whatever [x] is, the penalty is a number and is not negative. *)
Lemma penalty_nonneg (x : float) :
  Prim2SF (penalty a w x) <> S754_nan
  /\ 0 <= rank (Prim2SF (penalty a w x)).
Proof.
  unfold penalty, Binary64.max.
  destruct (0 <? (a - x) / a)%float eqn:L.
  - rewrite FloatAxioms.ltb_spec in L.
    change (Prim2SF 0) with (S754_zero false) in L.
    rewrite FloatAxioms.mul_spec, Hw.
    pose proof (Prim2SF_valid ((a - x) / a)) as V.
    pose proof (Prim2SF_valid w) as Vw. rewrite Hw in Vw.
    destruct (Prim2SF ((a - x) / a)) as [s | s | | s m e];
      try discriminate; destruct s; try discriminate.
    + split; [discriminate |]. cbn. pose proof rank_infinity_pos. lia.
    + destruct (SFmul_rank false false m mw e ew V Vw) as (Le & NN & ->).
      split; [exact NN |]. cbn [xorb cond_Zopp].
      pose proof (raw_rank_nonneg (Z.pos m * Z.pos mw) 1 (e + ew)
                    ltac:(lia) ltac:(lia) Le).
      pose proof rank_infinity_pos. lia.
  - rewrite zero_times_weight. split; [discriminate | reflexivity].
Qed.

Hypothesis Hfull : rank (Prim2SF (penalty a w 0)) < rank_infinity.

(** For [x >= 0], +infinity included, the penalty is finite and lies
    between 0 and the penalty at 0. *)
Lemma penalty_range (x : float) :
  (0 <=? x)%float = true ->
  sf_finite (Prim2SF (penalty a w x)) = true
  /\ 0 <= rank (Prim2SF (penalty a w x))
     <= rank (Prim2SF (penalty a w 0)).
Proof.
  intros L. pose proof (leb_rank _ _ L) as R.
  destruct (leb_not_nan _ _ L) as [_ NN].
  change (rank (Prim2SF 0)) with 0 in R.
  destruct (penalty_nonneg x) as [Nx Px].
  destruct (penalty_nonneg 0) as [N0 P0].
  pose proof rank_infinity_pos as RI.
  assert (B : rank (Prim2SF (penalty a w x))
              <= rank (Prim2SF (penalty a w 0))).
  { destruct (sf_finite (Prim2SF x)) eqn:F.
    - apply (penalty_antitone_finite 0 x); try assumption; reflexivity.
    - assert (Prim2SF x = S754_infinity false) as Ex.
      { destruct (Prim2SF x) as [s | s | | s m e]; try discriminate;
          [| congruence].
        cbn in R. destruct s; [lia | reflexivity]. }
      rewrite (proj2 (penalty_none x
                        ltac:(rewrite FloatAxioms.sub_spec, Ha, Ex; cbn; lia))).
      exact P0. }
  split; [| lia]. apply rank_finite; [exact Nx | lia].
Qed.

Lemma penalty_antitone (x1 x2 : float) :
  (0 <=? x1)%float = true -> (x1 <=? x2)%float = true ->
  rank (Prim2SF (penalty a w x2)) <= rank (Prim2SF (penalty a w x1)).
Proof.
  intros L0 L. pose proof (leb_rank _ _ L0) as R0.
  pose proof (leb_rank _ _ L) as R.
  destruct (leb_not_nan _ _ L) as [N1 N2].
  change (rank (Prim2SF 0)) with 0 in R0.
  pose proof rank_infinity_pos as RI.
  destruct (sf_finite (Prim2SF x2)) eqn:F2.
  - assert (F1 : sf_finite (Prim2SF x1) = true).
    { apply rank_finite; [exact N1 |].
      pose proof (finite_rank _ (Prim2SF_valid x2) F2). lia. }
    now apply penalty_antitone_finite.
  - assert (Prim2SF x2 = S754_infinity false) as Ex.
    { destruct (Prim2SF x2) as [s | s | | s m e]; try discriminate;
        [| congruence].
      cbn in R. destruct s; [lia | reflexivity]. }
    rewrite (proj2 (penalty_none x2
                      ltac:(rewrite FloatAxioms.sub_spec, Ha, Ex; cbn; lia))).
    apply penalty_nonneg.
Qed.

End Penalty.

Section Score.

Local Open Scope Z_scope.

Lemma calculate_green_score_penalties (cost carbon_emission : float) :
  Binary64.calculate_green_score cost carbon_emission
  = Binary64.int (100 - penalty 50 20 cost - penalty 20 80 carbon_emission).
Proof. reflexivity. Qed.

Lemma cost_factor_range (cost : float) :
  (0 <=? cost)%float = true ->
  sf_finite (Prim2SF (penalty 50 20 cost)) = true
  /\ 0 <= rank (Prim2SF (penalty 50 20 cost)) <= rank (Prim2SF 20).
Proof.
  intros L.
  eapply (penalty_range 50 20) in L;
    [exact L | vm_compute; reflexivity | vm_compute; reflexivity
     | vm_compute; reflexivity | vm_compute; reflexivity].
Qed.

Lemma emission_factor_range (carbon_emission : float) :
  (0 <=? carbon_emission)%float = true ->
  sf_finite (Prim2SF (penalty 20 80 carbon_emission)) = true
  /\ 0 <= rank (Prim2SF (penalty 20 80 carbon_emission))
     <= rank (Prim2SF 80).
Proof.
  intros L.
  eapply (penalty_range 20 80) in L;
    [exact L | vm_compute; reflexivity | vm_compute; reflexivity
     | vm_compute; reflexivity | vm_compute; reflexivity].
Qed.

Lemma cost_factor_antitone (cost1 cost2 : float) :
  (0 <=? cost1)%float = true -> (cost1 <=? cost2)%float = true ->
  rank (Prim2SF (penalty 50 20 cost2))
  <= rank (Prim2SF (penalty 50 20 cost1)).
Proof.
  intros L0 L.
  eapply (penalty_antitone 50 20); try eassumption;
    vm_compute; reflexivity.
Qed.

Lemma emission_factor_antitone (e1 e2 : float) :
  (0 <=? e1)%float = true -> (e1 <=? e2)%float = true ->
  rank (Prim2SF (penalty 20 80 e2)) <= rank (Prim2SF (penalty 20 80 e1)).
Proof.
  intros L0 L.
  eapply (penalty_antitone 20 80); try eassumption;
    vm_compute; reflexivity.
Qed.

Lemma factor_nonneg (a w : float) (mw : positive) (ew : Z) (x : float) :
  Prim2SF w = S754_finite false mw ew ->
  sf_finite (Prim2SF (penalty a w x)) = true
  \/ Prim2SF (penalty a w x) = S754_infinity false.
Proof.
  intros Hw.
  destruct (penalty_nonneg a w mw ew Hw x) as [N P].
  destruct (Prim2SF (penalty a w x)) as [s | s | | s m e].
  - now left.
  - right. cbn in P. pose proof rank_infinity_pos.
    destruct s; [lia | reflexivity].
  - congruence.
  - now left.
Qed.

Lemma finite_le_max_float (x : float) :
  sf_finite (Prim2SF x) = true ->
  rank (Prim2SF (- max_float)) <= rank (Prim2SF x)
  /\ rank (Prim2SF x) <= rank (Prim2SF max_float).
Proof.
  intros F. pose proof (finite_rank _ (Prim2SF_valid x) F) as B.
  assert (rank (Prim2SF max_float) = rank_infinity - 1)
    as -> by (vm_compute; reflexivity).
  assert (rank (Prim2SF (- max_float)) = - (rank_infinity - 1))
    as -> by (vm_compute; reflexivity).
  lia.
Qed.

Lemma finite_between (x lo hi : float) :
  Prim2SF x <> S754_nan ->
  sf_finite (Prim2SF lo) = true -> sf_finite (Prim2SF hi) = true ->
  rank (Prim2SF lo) <= rank (Prim2SF x) ->
  rank (Prim2SF x) <= rank (Prim2SF hi) ->
  sf_finite (Prim2SF x) = true.
Proof.
  intros N Flo Fhi L H.
  pose proof (finite_rank _ (Prim2SF_valid lo) Flo).
  pose proof (finite_rank _ (Prim2SF_valid hi) Fhi).
  apply rank_finite; [exact N | lia].
Qed.

(** [x - y] is finite when [x] and [y] are, [lo <= x] and
    [0 <= y <= hi], [lo - hi] being finite. *)
Lemma sub_finite (x y lo hi : float) :
  sf_finite (Prim2SF x) = true -> sf_finite (Prim2SF y) = true ->
  sf_finite (Prim2SF lo) = true -> sf_finite (Prim2SF hi) = true ->
  sf_finite (Prim2SF (lo - hi)) = true ->
  rank (Prim2SF lo) <= rank (Prim2SF x) ->
  0 <= rank (Prim2SF y) -> rank (Prim2SF y) <= rank (Prim2SF hi) ->
  sf_finite (Prim2SF (x - y)) = true
  /\ rank (Prim2SF (x - y)) <= rank (Prim2SF x).
Proof.
  intros Fx Fy Flo Fhi Fl L P H.
  assert (F0 : sf_finite (Prim2SF 0) = true) by reflexivity.
  pose proof (sub_mono_r 0 y x F0 Fy Fx P) as U.
  rewrite (sub_zero_rank x Fx) in U.
  pose proof (sub_mono_r y hi x Fy Fhi Fx H) as L1.
  pose proof (sub_mono_l lo x hi Flo Fx Fhi L) as L2.
  split; [| exact U].
  apply (finite_between _ (lo - hi) x); try assumption; try lia.
  now apply sub_not_nan.
Qed.

Lemma int_infinite (x : float) (s : bool) :
  Prim2SF x = S754_infinity s -> Binary64.int x = None.
Proof. unfold Binary64.int. now intros ->. Qed.

Lemma result_le_of_int (x1 x2 : float) :
  sf_finite (Prim2SF x1) = true -> sf_finite (Prim2SF x2) = true ->
  rank (Prim2SF x1) <= rank (Prim2SF x2) ->
  result_le (Binary64.int x1) (Binary64.int x2).
Proof.
  intros F1 F2 R.
  destruct (int_mono x1 x2 F1 F2 R) as (z1 & z2 & -> & -> & L).
  exact L.
Qed.

(** [100 - cost_factor], for a cost factor between 0 and 20. *)
Lemma base_minus_cost_factor (cf : float) :
  sf_finite (Prim2SF cf) = true ->
  0 <= rank (Prim2SF cf) <= rank (Prim2SF 20) ->
  sf_finite (Prim2SF (100 - cf)) = true
  /\ rank (Prim2SF 80) <= rank (Prim2SF (100 - cf)) <= rank (Prim2SF 100).
Proof.
  intros F [P B].
  assert (F100 : sf_finite (Prim2SF 100) = true) by reflexivity.
  assert (F20 : sf_finite (Prim2SF 20) = true) by reflexivity.
  assert (F0 : sf_finite (Prim2SF 0) = true) by reflexivity.
  pose proof (sub_mono_r 0 cf 100 F0 F F100 P) as U.
  pose proof (sub_mono_r cf 20 100 F F20 F100 B) as L.
  change (100 - 0)%float with 100%float in U.
  change (100 - 20)%float with 80%float in L.
  split; [| lia].
  apply (finite_between _ 80 100); try assumption; try reflexivity.
  now apply sub_not_nan.
Qed.

(** The score grows with [100 - cost_factor]. *)
Lemma score_mono_base (s1 s2 ef : float) :
  sf_finite (Prim2SF s1) = true -> sf_finite (Prim2SF s2) = true ->
  rank (Prim2SF 80) <= rank (Prim2SF s1) ->
  rank (Prim2SF s1) <= rank (Prim2SF s2) ->
  sf_finite (Prim2SF ef) = true \/ Prim2SF ef = S754_infinity false ->
  0 <= rank (Prim2SF ef) ->
  result_le (Binary64.int (s1 - ef)) (Binary64.int (s2 - ef)).
Proof.
  intros F1 F2 L R [Fe | Ie] Pe.
  - assert (F80 : sf_finite (Prim2SF 80) = true) by reflexivity.
    assert (Fl : sf_finite (Prim2SF (80 - max_float)) = true)
      by (vm_compute; reflexivity).
    assert (Fm : sf_finite (Prim2SF max_float) = true) by reflexivity.
    pose proof (proj2 (finite_le_max_float ef Fe)) as He.
    destruct (sub_finite s1 ef 80 max_float F1 Fe F80 Fm Fl L Pe He)
      as [G1 _].
    destruct (sub_finite s2 ef 80 max_float F2 Fe F80 Fm Fl
                ltac:(lia) Pe He) as [G2 _].
    apply result_le_of_int; try assumption.
    now apply sub_mono_l.
  - assert (I : forall s, sf_finite (Prim2SF s) = true ->
                          Prim2SF (s - ef) = S754_infinity true).
    { intros s F. rewrite FloatAxioms.sub_spec, Ie.
      now destruct (Prim2SF s). }
    rewrite (int_infinite _ _ (I s1 F1)), (int_infinite _ _ (I s2 F2)).
    exact Logic.I.
Qed.

(** The score falls as the emission factor grows. *)
Lemma score_antitone_emission_factor (s ef1 ef2 : float) :
  sf_finite (Prim2SF s) = true \/ Prim2SF s = S754_infinity true ->
  sf_finite (Prim2SF ef1) = true -> sf_finite (Prim2SF ef2) = true ->
  0 <= rank (Prim2SF ef2) ->
  rank (Prim2SF ef2) <= rank (Prim2SF ef1) ->
  rank (Prim2SF ef1) <= rank (Prim2SF 80) ->
  result_le (Binary64.int (s - ef1)) (Binary64.int (s - ef2)).
Proof.
  intros [Fs | Is] F1 F2 P R H.
  - assert (Fm : sf_finite (Prim2SF (- max_float)) = true) by reflexivity.
    assert (F80 : sf_finite (Prim2SF 80) = true) by reflexivity.
    assert (Fl : sf_finite (Prim2SF (- max_float - 80)) = true)
      by (vm_compute; reflexivity).
    pose proof (proj1 (finite_le_max_float s Fs)) as Ls.
    destruct (sub_finite s ef1 (- max_float) 80 Fs F1 Fm F80 Fl Ls
                ltac:(lia) H) as [G1 _].
    destruct (sub_finite s ef2 (- max_float) 80 Fs F2 Fm F80 Fl Ls P
                ltac:(lia)) as [G2 _].
    apply result_le_of_int; try assumption.
    now apply sub_mono_r.
  - assert (I : forall ef, sf_finite (Prim2SF ef) = true ->
                           Prim2SF (s - ef) = S754_infinity true).
    { intros ef F. rewrite FloatAxioms.sub_spec, Is.
      now destruct (Prim2SF ef). }
    rewrite (int_infinite _ _ (I ef1 F1)), (int_infinite _ _ (I ef2 F2)).
    exact Logic.I.
Qed.

(** [100 - cost_factor], whatever the cost: finite, or -infinity. *)
Lemma base_minus_any_cost_factor (cost : float) :
  sf_finite (Prim2SF (100 - penalty 50 20 cost)) = true
  \/ Prim2SF (100 - penalty 50 20 cost) = S754_infinity true.
Proof.
  assert (H20 : Prim2SF 20 = S754_finite false 5629499534213120 (-48))
    by (vm_compute; reflexivity).
  destruct (factor_nonneg 50 20 _ _ cost H20) as [F | I].
  - left.
    destruct (penalty_nonneg 50 20 _ _ H20 cost) as [_ P].
    assert (F100 : sf_finite (Prim2SF 100) = true) by reflexivity.
    assert (Fl : sf_finite (Prim2SF (100 - max_float)) = true)
      by (vm_compute; reflexivity).
    assert (Fm : sf_finite (Prim2SF max_float) = true) by reflexivity.
    apply (sub_finite 100 _ 100 max_float); try assumption; try lia.
    now apply finite_le_max_float.
  - right. rewrite FloatAxioms.sub_spec, I. reflexivity.
Qed.

(** On costs and emissions that are not negative the score is computed
    and lies between 0 and 100. *)
Lemma score_range (cost carbon_emission : float) :
  (0 <=? cost)%float = true -> (0 <=? carbon_emission)%float = true ->
  exists z,
    Binary64.calculate_green_score cost carbon_emission = Some z
    /\ 0 <= z <= 100.
Proof.
  intros Lc Le. rewrite calculate_green_score_penalties.
  destruct (cost_factor_range cost Lc) as [Fc Bc].
  destruct (emission_factor_range carbon_emission Le) as [Fe Be].
  destruct (base_minus_cost_factor _ Fc Bc) as [Fs Bs].
  set (s := (100 - penalty 50 20 cost)%float) in *.
  set (ef := penalty 20 80 carbon_emission) in *.
  assert (F80 : sf_finite (Prim2SF 80) = true) by reflexivity.
  assert (F100 : sf_finite (Prim2SF 100) = true) by reflexivity.
  assert (F0 : sf_finite (Prim2SF 0) = true) by reflexivity.
  assert (Fl : sf_finite (Prim2SF (80 - max_float)) = true)
    by (vm_compute; reflexivity).
  assert (Fm : sf_finite (Prim2SF max_float) = true) by reflexivity.
  destruct (sub_finite s ef 80 max_float Fs Fe F80 Fm Fl ltac:(lia)
              ltac:(lia) (proj2 (finite_le_max_float ef Fe)))
    as [G U].
  pose proof (sub_mono_l 80 s ef F80 Fs Fe ltac:(lia)) as L1.
  pose proof (sub_mono_r ef 80 80 Fe F80 F80 ltac:(lia)) as L2.
  change (Prim2SF (80 - 80)) with (S754_zero false) in L2.
  change (rank (S754_zero false)) with 0 in L2.
  destruct (int_mono 0 (s - ef) F0 G
              ltac:(change (rank (Prim2SF 0)) with 0; lia))
    as (z0 & z & E0 & Ez & Lz).
  destruct (int_mono (s - ef) 100 G F100 ltac:(lia))
    as (z' & z100 & Ez' & E100 & Lz').
  exists z. split; [exact Ez |].
  rewrite Ez in Ez'. injection Ez' as <-.
  change (Binary64.int 0) with (Some 0) in E0.
  change (Binary64.int 100) with (Some 100) in E100.
  injection E0 as <-. injection E100 as <-. lia.
Qed.

(** Cost up, score up; emission up, score up; with the other argument
    whatever it is. *)
Lemma score_mono (lo hi other : float) :
  (0 <=? lo)%float = true -> (lo <=? hi)%float = true ->
  result_le (Binary64.calculate_green_score lo other)
            (Binary64.calculate_green_score hi other)
  /\ result_le (Binary64.calculate_green_score other lo)
               (Binary64.calculate_green_score other hi).
Proof.
  intros L0 L. rewrite !calculate_green_score_penalties.
  assert (L0' : (0 <=? hi)%float = true).
  { pose proof (leb_rank _ _ L0) as R0. pose proof (leb_rank _ _ L) as R.
    destruct (leb_not_nan _ _ L) as [_ N].
    rewrite FloatAxioms.leb_spec.
    change (Prim2SF 0) with (S754_zero false) in *.
    change (rank (S754_zero false)) with 0 in R0.
    pose proof (Prim2SF_valid hi) as V.
    destruct (Prim2SF hi) as [s | s | | s m e]; try reflexivity;
      try congruence.
    - cbn in R. pose proof rank_infinity_pos. destruct s; [lia | reflexivity].
    - pose proof (rank_sign s m e V). destruct s; [lia | reflexivity]. }
  split.
  - destruct (cost_factor_range lo L0) as [F1 B1].
    destruct (cost_factor_range hi L0') as [F2 B2].
    pose proof (cost_factor_antitone lo hi L0 L) as A.
    destruct (base_minus_cost_factor _ F1 B1) as [Fs1 Bs1].
    destruct (base_minus_cost_factor _ F2 B2) as [Fs2 Bs2].
    assert (F100 : sf_finite (Prim2SF 100) = true) by reflexivity.
    pose proof (sub_mono_r _ _ 100 F2 F1 F100 A) as S.
    apply score_mono_base; try assumption; try lia.
    + apply (factor_nonneg 20 80 5629499534213120 (-46) other).
      vm_compute. reflexivity.
    + apply (penalty_nonneg 20 80 5629499534213120 (-46)).
      vm_compute. reflexivity.
  - destruct (emission_factor_range lo L0) as [F1 B1].
    destruct (emission_factor_range hi L0') as [F2 B2].
    pose proof (emission_factor_antitone lo hi L0 L) as A.
    apply score_antitone_emission_factor; try assumption; try lia.
    apply base_minus_any_cost_factor.
Qed.

End Score.

(** C5, refuted as stated: no cost and emission that are both at least
    0 give a result below zero. *)
Lemma no_negative_score_from_nonnegative_inputs :
  ~ exists (cost carbon_emission : float) (z : Z),
      (0 <=? cost)%float = true
      /\ (0 <=? carbon_emission)%float = true
      /\ Binary64.calculate_green_score cost carbon_emission = Some z
      /\ (z < 0)%Z.
Proof.
  intros (cost & e & z & Lc & Le & E & N).
  destruct (score_range cost e Lc Le) as (z' & E' & B).
  rewrite E in E'. injection E' as <-. lia.
Qed.

(** C5, amended: for every cost and emission that are at least 0,
    +infinity included, [calculate_green_score] raises nothing and
    returns a value between 0 and 100, and 0 is returned at cost 0 and
    emission 0; the result is not clamped, and below zero it is for
    inputs outside that range: a cost of -50 with emission 0 gives
    -20. *)
Theorem score_floor_on_nonnegative_inputs (cost carbon_emission : float) :
  (0 <=? cost)%float = true ->
  (0 <=? carbon_emission)%float = true ->
  (exists z,
      Binary64.calculate_green_score cost carbon_emission = Some z
      /\ (0 <= z <= 100)%Z)
  /\ Binary64.calculate_green_score 0 0 = Some 0%Z
  /\ Binary64.calculate_green_score (-50) 0 = Some (-20)%Z.
Proof.
  intros Lc Le. split; [now apply score_range |].
  split; vm_compute; reflexivity.
Qed.

Lemma score_floor_on_nonnegative_inputs_witness :
  (exists z,
      Binary64.calculate_green_score 0x1p-7 0x1p-1074 = Some z
      /\ (0 <= z <= 100)%Z)
  /\ Binary64.calculate_green_score 0 0 = Some 0%Z
  /\ Binary64.calculate_green_score (-50) 0 = Some (-20)%Z.
Proof.
  apply (score_floor_on_nonnegative_inputs 0x1p-7 0x1p-1074);
    vm_compute; reflexivity.
Defined.

(** C8: the score is monotone in each argument with the other held
    fixed.  For floats [0 <= lo <= hi] and any float [other], the
    score at cost [lo] is at most the score at cost [hi] (emission
    [other]), and the score at emission [lo] is at most the score at
    emission [hi] (cost [other]); where the fixed argument makes the
    code raise, it raises at both.  When [other] is at least 0 as well,
    all four calls return. *)
Theorem calculate_green_score_monotone (lo hi other : float) :
  (0 <=? lo)%float = true ->
  (lo <=? hi)%float = true ->
  result_le (Binary64.calculate_green_score lo other)
            (Binary64.calculate_green_score hi other)
  /\ result_le (Binary64.calculate_green_score other lo)
               (Binary64.calculate_green_score other hi)
  /\ ((0 <=? other)%float = true ->
      exists a b c d,
        Binary64.calculate_green_score lo other = Some a
        /\ Binary64.calculate_green_score hi other = Some b
        /\ (a <= b)%Z
        /\ Binary64.calculate_green_score other lo = Some c
        /\ Binary64.calculate_green_score other hi = Some d
        /\ (c <= d)%Z).
Proof.
  intros L0 L. destruct (score_mono lo hi other L0 L) as [Mc Me].
  split; [exact Mc |]. split; [exact Me |].
  intros Lo.
  assert (L0' : (0 <=? hi)%float = true).
  { pose proof (leb_rank _ _ L0) as R0. pose proof (leb_rank _ _ L) as R.
    destruct (leb_not_nan _ _ L) as [_ N].
    rewrite FloatAxioms.leb_spec.
    change (Prim2SF 0) with (S754_zero false) in *.
    change (rank (S754_zero false)) with 0%Z in R0.
    pose proof (Prim2SF_valid hi) as V.
    destruct (Prim2SF hi) as [s | s | | s m e]; try reflexivity;
      try congruence.
    - cbn in R. pose proof rank_infinity_pos.
      destruct s; [lia | reflexivity].
    - pose proof (rank_sign s m e V). destruct s; [lia | reflexivity]. }
  destruct (score_range lo other L0 Lo) as (a & Ea & _).
  destruct (score_range hi other L0' Lo) as (b & Eb & _).
  destruct (score_range other lo Lo L0) as (c & Ec & _).
  destruct (score_range other hi Lo L0') as (d & Ed & _).
  rewrite Ea, Eb in Mc. rewrite Ec, Ed in Me.
  exists a, b, c, d. repeat split; assumption.
Qed.

Lemma calculate_green_score_monotone_witness :
  result_le (Binary64.calculate_green_score 10 5)
            (Binary64.calculate_green_score 30 5)
  /\ result_le (Binary64.calculate_green_score 5 10)
               (Binary64.calculate_green_score 5 30).
Proof.
  destruct (calculate_green_score_monotone 10 30 5 eq_refl eq_refl)
    as (A & B & _).
  split; [exact A | exact B].
Defined.

(** X1: whatever the cost and the emission are, negative ones, the
    infinities and NaN included, a result that [calculate_green_score]
    returns is at most 100: both penalty terms are kept from below zero
    by [max(0, .)]. *)
Theorem calculate_green_score_at_most_100
    (cost carbon_emission : float) (z : Z) :
  Binary64.calculate_green_score cost carbon_emission = Some z ->
  (z <= 100)%Z.
Proof.
  rewrite calculate_green_score_penalties. intros E.
  assert (H20 : Prim2SF 20 = S754_finite false 5629499534213120 (-48))
    by (vm_compute; reflexivity).
  assert (H80 : Prim2SF 80 = S754_finite false 5629499534213120 (-46))
    by (vm_compute; reflexivity).
  destruct (penalty_nonneg 50 20 _ _ H20 cost) as [_ Pc].
  destruct (penalty_nonneg 20 80 _ _ H80 carbon_emission) as [Ne Pe].
  set (cf := penalty 50 20 cost) in *.
  set (ef := penalty 20 80 carbon_emission) in *.
  assert (F100 : sf_finite (Prim2SF 100) = true) by reflexivity.
  assert (F0 : sf_finite (Prim2SF 0) = true) by reflexivity.
  destruct (factor_nonneg 50 20 _ _ cost H20) as [Fc | Ic].
  - destruct (factor_nonneg 20 80 _ _ carbon_emission H80) as [Fe | Ie].
    + fold cf in Fc. fold ef in Fe.
      assert (Fm : sf_finite (Prim2SF max_float) = true) by reflexivity.
      assert (Fl : sf_finite (Prim2SF (100 - max_float)) = true)
        by (vm_compute; reflexivity).
      destruct (sub_finite 100 cf 100 max_float F100 Fc F100 Fm Fl
                  ltac:(lia) Pc (proj2 (finite_le_max_float cf Fc)))
        as [Fs Us].
      pose proof (sub_mono_r 0 ef (100 - cf) F0 Fe Fs Pe) as U.
      rewrite (sub_zero_rank _ Fs) in U.
      destruct (sf_finite (Prim2SF (100 - cf - ef))) eqn:G.
      * destruct (int_mono _ 100 G F100 ltac:(lia))
          as (z1 & z2 & E1 & E2 & Lz).
        rewrite E in E1. injection E1 as <-.
        change (Binary64.int 100) with (Some 100%Z) in E2.
        injection E2 as <-. exact Lz.
      * unfold Binary64.int in E.
        destruct (Prim2SF (100 - cf - ef)); discriminate.
    + fold ef in Ie. exfalso. unfold Binary64.int in E.
      rewrite FloatAxioms.sub_spec, Ie in E.
      pose proof (sub_not_nan 100 cf F100) as NN.
      destruct (Prim2SF (100 - cf)) as [s | s | | s m e]; cbn in E;
        try discriminate; destruct s; discriminate.
  - fold cf in Ic. exfalso. unfold Binary64.int in E.
    rewrite FloatAxioms.sub_spec in E.
    assert (Prim2SF (100 - cf) = S754_infinity true) as Es
      by (rewrite FloatAxioms.sub_spec, Ic; reflexivity).
    rewrite Es in E.
    pose proof (Prim2SF_valid ef) as V.
    destruct (Prim2SF ef) as [s | s | | s m e]; cbn in E;
      try discriminate; try congruence.
    cbn in Pe. pose proof rank_infinity_pos.
    destruct s; [lia | discriminate].
Qed.

Lemma calculate_green_score_at_most_100_witness : (16 <= 100)%Z.
Proof.
  apply (calculate_green_score_at_most_100 tenth four_and_24_hundredths 16).
  vm_compute. reflexivity.
Defined.

(** ** Statements and cursors *)

Lemma select_users_by_id (id : string) (c : connection) :
  select_where users users_column "id" (Text id) c
  = (c, inr (filter (fun u => u_id u =? id) (users (pending c)))).
Proof. reflexivity. Qed.

Lemma select_users_by_phone (phone : string) (c : connection) :
  select_where users users_column "phone_number" (Text phone) c
  = (c, inr (filter (fun u => u_phone_number u =? phone)
                    (users (pending c)))).
Proof. reflexivity. Qed.

(** [products] has no column [product_id]: the statement of line 179 is
    refused whatever the rows are. *)
Lemma select_products_by_product_id (v : sqlval) (c : connection) :
  select_where products products_column "product_id" v c
  = (c, inl (OperationalError "no such column: product_id")).
Proof. reflexivity. Qed.

(** The column the table does have, the one the join of line 219 uses. *)
Lemma select_products_by_id (id : string) (c : connection) :
  select_where products products_column "id" (Text id) c
  = (c, inr (filter (fun p => p_id p =? id) (products (pending c)))).
Proof. reflexivity. Qed.

Lemma fetchone_filter_none {R} (f : R -> bool) (l : list R) :
  existsb f l = false -> fetchone (filter f l) = None.
Proof.
  induction l as [| x l IH]; cbn; [reflexivity |].
  destruct (f x); cbn; [discriminate | exact IH].
Qed.

Lemma fetchone_filter_some {R} (f : R -> bool) (l : list R) :
  existsb f l = true ->
  exists r, fetchone (filter f l) = Some r /\ In r l /\ f r = true.
Proof.
  induction l as [| x l IH]; cbn; [discriminate |].
  destruct (f x) eqn:E; cbn.
  - intros _. exists x. auto.
  - intros H. destruct (IH H) as (r & E1 & E2 & E3). exists r. auto.
Qed.

Lemma existsb_id_false (id : string) (us : list user_row) :
  existsb (fun u => u_id u =? id) us = false <-> ~ In id (map u_id us).
Proof.
  induction us as [| u us IH]; cbn.
  - tauto.
  - rewrite orb_false_iff, IH, String.eqb_neq. tauto.
Qed.


Lemma is_nan_zero : is_nan 0%float = false.
Proof. reflexivity. Qed.

(** *** The [UPDATE] on the rows *)

Lemma credited_ids uid score us :
  map u_id (credited uid score us) = map u_id us.
Proof.
  unfold credited. rewrite map_map. apply map_ext.
  intros u. now destruct (u_id u =? uid).
Qed.

Lemma in_credited uid score us u' :
  In u' (credited uid score us) ->
  exists u, In u us /\ u_id u' = u_id u /\
    ((u_id u = uid /\ u_green_score u' = score) \/
     (u_id u <> uid /\ u' = u)).
Proof.
  unfold credited. rewrite in_map_iff. intros (u & E & H).
  exists u. split; [exact H |].
  destruct (u_id u =? uid) eqn:T; subst u'.
  - apply String.eqb_eq in T. cbn. auto.
  - apply String.eqb_neq in T. auto.
Qed.


(** *** The [AUTOINCREMENT] key *)

Lemma largest_rowid_nonneg rows : 0 <= largest_rowid rows.
Proof.
  unfold largest_rowid. induction rows as [| y rows IH];
    cbn [fold_right]; lia.
Qed.

Lemma largest_rowid_snoc rows x :
  largest_rowid (rows ++ [x]) = Z.max (largest_rowid rows) (Z.max (b_id x) 0).
Proof.
  unfold largest_rowid. induction rows as [| y rows IH];
    cbn [app fold_right]; [lia | rewrite IH; lia].
Qed.

(** ** The handlers, case by case *)

Section Handlers.

Context {E : PatternEngine}.
Variable db : database.

Lemma record_purchase_user_missing purchase now :
  resolves_user (user_id purchase) db = false ->
  with_connection (record_purchase purchase now) db
  = (db, inl (HTTPException 404 "User not found")).
Proof.
  intros H. unfold with_connection, record_purchase, bind.
  rewrite select_users_by_id. cbn [pending connect].
  unfold resolves_user in H.
  rewrite (fetchone_filter_none _ _ H). reflexivity.
Qed.

Lemma record_purchase_user_present purchase now :
  resolves_user (user_id purchase) db = true ->
  with_connection (record_purchase purchase now) db
  = (db, inl (OperationalError "no such column: product_id")).
Proof.
  intros H. unfold with_connection, record_purchase, bind.
  rewrite select_users_by_id. cbn [pending connect].
  destruct (fetchone_filter_some _ _ H) as (u & -> & _).
  rewrite select_products_by_product_id. reflexivity.
Qed.

Lemma with_connection_record_purchase purchase now :
  fst (with_connection (record_purchase purchase now) db) = db.
Proof.
  destruct (resolves_user (user_id purchase) db) eqn:R.
  - now rewrite record_purchase_user_present.
  - now rewrite record_purchase_user_missing.
Qed.

Lemma register_user_cases (user : User) (fresh : UUID) :
  (phone_registered (phone_number user) db = true /\
   with_connection (register_user user fresh) db
   = (db, inl (HTTPException 400 "Phone number already registered")))
  \/
  (phone_registered (phone_number user) db = false /\
   resolves_user fresh db = true /\
   with_connection (register_user user fresh) db
   = (db, inl (IntegrityError "UNIQUE constraint failed: users.id")))
  \/
  (phone_registered (phone_number user) db = false /\
   resolves_user fresh db = false /\
   with_connection (register_user user fresh) db
   = (with_users (users db ++ [new_user_row user fresh]) db,
      inr {| ur_id := str fresh; ur_phone_number := phone_number user;
             ur_name := name user; ur_green_score := 0 |})).
Proof.
  unfold with_connection, register_user, bind.
  rewrite select_users_by_phone. cbn [pending connect].
  destruct (phone_registered (phone_number user) db) eqn:P;
    unfold phone_registered in P.
  - left. split; [reflexivity |].
    destruct (fetchone_filter_some _ _ P) as (u & -> & _). reflexivity.
  - right. rewrite (fetchone_filter_none _ _ P).
    unfold insert_user.
    cbn [pending committed connect u_id u_phone_number u_green_score
         ur_id ur_phone_number ur_name ur_green_score].
    rewrite is_nan_zero.
    change (existsb (fun u => u_id u =? str fresh) (users db))
      with (resolves_user fresh db).
    destruct (resolves_user fresh db) eqn:I.
    + left. repeat split; reflexivity.
    + right. rewrite P. repeat split; reflexivity.
Qed.

(** [POST /users] as one equation. *)
Lemma post_users_eq (body : User) (fresh : UUID) :
  post_users body fresh db
  = if negb (phone_number_pattern (phone_number body))
    then (db, inl (RequestValidationError "phone_number"))
    else if phone_registered (phone_number body) db
    then (db, inl (HTTPException 400 "Phone number already registered"))
    else if resolves_user fresh db
    then (db, inl (IntegrityError "UNIQUE constraint failed: users.id"))
    else (with_users (users db ++ [new_user_row body fresh]) db,
          inr {| ur_id := str fresh; ur_phone_number := phone_number body;
                 ur_name := name body; ur_green_score := 0 |}).
Proof.
  unfold post_users, validate_User.
  destruct (phone_number_pattern (phone_number body)); cbn [negb];
    [| reflexivity].
  destruct (register_user_cases body fresh)
    as [[-> ->] | [(-> & -> & ->) | (-> & -> & ->)]]; reflexivity.
Qed.

(** Lines 184-200 as one equation: the [UPDATE] refuses a NaN, the
    [INSERT] fails when the rowids are used up and refuses a NaN;
    otherwise both writes are committed. *)
Lemma record_purchase_writes_eq purchase user product now :
  with_connection (record_purchase_writes purchase user product now) db
  = if is_nan (new_green_score user product)
       && resolves_user (user_id purchase) db
    then (db, inl (IntegrityError
                     "NOT NULL constraint failed: users.green_score"))
    else if (max_rowid <=? high_water db)%Z
    then (db, inl (OperationalError "database or disk is full"))
    else if is_nan (p_sustainability_score product)
    then (db, inl (IntegrityError
                     "NOT NULL constraint failed: purchases.impact_on_green_score"))
    else (recorded purchase user product now db,
          inr (receipt purchase product now db)).
Proof.
  unfold with_connection, record_purchase_writes, bind, update_green_score,
    insert_purchase.
  cbn [pending committed connect users products purchases purchases_seq].
  fold (new_green_score user product).
  change (existsb (fun u => u_id u =? str (user_id purchase)) (users db))
    with (resolves_user (user_id purchase) db).
  destruct (is_nan (new_green_score user product)
            && resolves_user (user_id purchase) db); [reflexivity |].
  cbn [pending committed users products purchases purchases_seq].
  fold (high_water db).
  destruct (max_rowid <=? high_water db)%Z; [reflexivity |].
  destruct (is_nan (p_sustainability_score product)); reflexivity.
Qed.

Lemma record_purchase_writes_commit purchase user product now :
  writes_commit purchase user product db = true ->
  with_connection (record_purchase_writes purchase user product now) db
  = (recorded purchase user product now db,
     inr (receipt purchase product now db)).
Proof.
  unfold writes_commit. rewrite record_purchase_writes_eq.
  destruct (is_nan (new_green_score user product)
            && resolves_user (user_id purchase) db); [discriminate |].
  destruct (max_rowid <=? high_water db)%Z; [discriminate |].
  destruct (is_nan (p_sustainability_score product)); [discriminate |].
  reflexivity.
Qed.

(** The writes leave the store as it was, or as [recorded]. *)
Lemma record_purchase_writes_cases purchase user product now :
  (writes_commit purchase user product db = false /\
   exists e,
     with_connection (record_purchase_writes purchase user product now) db
     = (db, inl e))
  \/
  (writes_commit purchase user product db = true /\
   with_connection (record_purchase_writes purchase user product now) db
   = (recorded purchase user product now db,
      inr (receipt purchase product now db))).
Proof.
  destruct (writes_commit purchase user product db) eqn:W.
  - right. split; [reflexivity | now apply record_purchase_writes_commit].
  - left. split; [reflexivity |]. revert W.
    unfold writes_commit. rewrite record_purchase_writes_eq.
    destruct (is_nan (new_green_score user product)
              && resolves_user (user_id purchase) db); [eauto |].
    destruct (max_rowid <=? high_water db)%Z; [eauto |].
    destruct (is_nan (p_sustainability_score product)); [eauto |].
    discriminate.
Qed.

Lemma with_connection_get_user id :
  fst (with_connection (get_user id) db) = db.
Proof.
  unfold with_connection, get_user, bind. rewrite select_users_by_id.
  cbn [pending connect]. now destruct (fetchone _).
Qed.

Lemma with_connection_get_green_score id :
  fst (with_connection (get_green_score id) db) = db.
Proof.
  unfold with_connection, get_green_score, bind. rewrite select_users_by_id.
  cbn [pending connect]. now destruct (fetchone _).
Qed.

(** [get_db_connection] is bound nowhere in the module. *)
Lemma with_connection_get_user_purchases id :
  with_connection (get_user_purchases id) db
  = (db, inl (NameError "get_db_connection")).
Proof. reflexivity. Qed.

Lemma fst_tagged {A} (tag : A -> response) (out : database * (exn + A)) :
  fst (tagged tag out) = fst out.
Proof. now destruct out as [d [e | a]]. Qed.

(** A request leaves the file as it was, or adds one user row whose
    identifier was not in use. *)
Lemma serve_database r :
  fst (serve r db) = db \/
  exists user fresh,
    resolves_user fresh db = false /\
    fst (serve r db) = with_users (users db ++ [new_user_row user fresh]) db.
Proof.
  destruct r as [body fresh | id | id | body now | id]; cbn [serve];
    rewrite fst_tagged.
  - rewrite post_users_eq.
    destruct (negb _); [now left |].
    destruct (phone_registered _ _); [now left |].
    destruct (resolves_user fresh db) eqn:F; [now left |].
    right. exists body, fresh. auto.
  - left. apply with_connection_get_user.
  - left. apply with_connection_get_green_score.
  - left. apply with_connection_record_purchase.
  - left. now rewrite with_connection_get_user_purchases.
Qed.

End Handlers.

(** ** The ledger invariant *)

Lemma impact_sum_snoc_same uid rows p :
  b_user_id p = uid ->
  impact_sum uid (rows ++ [p])
  = (impact_sum uid rows + b_impact_on_green_score p)%float.
Proof.
  intros H. unfold impact_sum. rewrite filter_app, fold_left_app.
  cbn [filter]. apply String.eqb_eq in H. rewrite H. reflexivity.
Qed.

Lemma impact_sum_snoc_other uid rows p :
  b_user_id p <> uid ->
  impact_sum uid (rows ++ [p]) = impact_sum uid rows.
Proof.
  intros H. unfold impact_sum. rewrite filter_app, fold_left_app.
  cbn [filter]. apply String.eqb_neq in H. rewrite H. reflexivity.
Qed.

Lemma impact_sum_unreferenced uid (rows : list purchase_row) :
  (forall p, In p rows -> b_user_id p <> uid) ->
  impact_sum uid rows = 0%float.
Proof.
  unfold impact_sum. intros H.
  replace (filter (fun p => b_user_id p =? uid) rows) with (@nil purchase_row);
    [reflexivity |].
  symmetry. induction rows as [| p rows IH]; cbn; [reflexivity |].
  destruct (b_user_id p =? uid) eqn:T.
  - apply String.eqb_eq in T. exfalso. apply (H p); auto. now left.
  - apply IH. intros q Hq. apply H. now right.
Qed.




Section Ledger.

Variable db : database.
Hypothesis db_consistent : consistent db.

(** A fresh user has no purchase, so its score 0.0 is the empty sum. *)
Lemma consistent_after_registration user fresh :
  resolves_user fresh db = false ->
  consistent (with_users (users db ++ [new_user_row user fresh]) db).
Proof.
  destruct db_consistent as [Hs Hu Hr].
  intros F. apply existsb_id_false in F.
  constructor.
  - intros u. unfold with_users. cbn [users purchases].
    rewrite in_app_iff. intros [H | [<- | []]].
    + now apply Hs.
    + cbn [new_user_row u_green_score u_id].
      rewrite impact_sum_unreferenced; [reflexivity |].
      intros p Hp T. apply F. rewrite <- T. now apply Hr.
  - unfold user_ids_unique, with_users in *. cbn [users].
    rewrite map_app. cbn [map new_user_row u_id].
    apply NoDup_app; [exact Hu | repeat constructor; intros [] |].
    intros a Ha [<- | []]. now apply F.
  - intros p. unfold with_users. cbn [users purchases].
    intros Hp. rewrite map_app, in_app_iff. left. now apply Hr.
Qed.

(** The two writes move the score and the sum by the same addition. *)
Lemma consistent_after_writes purchase user product now :
  In user (users db) ->
  u_id user = str (user_id purchase) ->
  consistent (recorded purchase user product now db).
Proof.
  destruct db_consistent as [Hs Hu Hr].
  intros Hin Hid. unfold recorded. constructor.
  - intros u'. cbn [users purchases]. intros H'.
    destruct (in_credited _ _ _ _ H') as (u & Hu0 & T & [[I S] | [I ->]]).
    + rewrite T, I, S. rewrite impact_sum_snoc_same by reflexivity.
      cbn [new_purchase_row b_impact_on_green_score].
      unfold new_green_score. now rewrite (Hs user Hin), Hid.
    + rewrite impact_sum_snoc_other; [now apply Hs |].
      cbn [new_purchase_row b_user_id]. congruence.
  - unfold user_ids_unique in *. cbn [users]. now rewrite credited_ids.
  - intros p. cbn [users purchases]. rewrite credited_ids, in_app_iff.
    intros [H | [<- | []]]; [now apply Hr |].
    cbn [new_purchase_row b_user_id]. rewrite <- Hid. now apply in_map.
Qed.

Lemma step_consistent {E : PatternEngine} db' :
  step db db' -> consistent db'.
Proof.
  intros [r | purchase user product now Hin Hid].
  - destruct (serve_database db r) as [-> | (user & fresh & F & ->)];
      [exact db_consistent | now apply consistent_after_registration].
  - destruct (record_purchase_writes_cases db purchase user product now)
      as [(_ & e & ->) | [_ ->]]; cbn [fst]; [exact db_consistent |].
    now apply consistent_after_writes.
Qed.

End Ledger.


(** ** Rowids *)

Lemma high_water_recorded purchase user product now db :
  high_water (recorded purchase user product now db) = high_water db + 1.
Proof.
  unfold high_water at 1, recorded. cbn [purchases purchases_seq].
  rewrite largest_rowid_snoc. cbn [b_id new_purchase_row].
  pose proof (largest_rowid_nonneg (purchases db)). unfold high_water. lia.
Qed.

Lemma high_water_after_writes purchase user product now db db' r :
  with_connection (record_purchase_writes purchase user product now) db
  = (db', inr r) ->
  pr_id r = high_water db + 1 /\ high_water db' = pr_id r.
Proof.
  destruct (record_purchase_writes_cases db purchase user product now)
    as [(_ & e & ->) | [_ ->]]; [discriminate |].
  intros T. injection T as <- <-. cbn [pr_id receipt].
  split; [reflexivity | apply high_water_recorded].
Qed.

Lemma step_high_water {E : PatternEngine} db db' :
  step db db' -> high_water db <= high_water db'.
Proof.
  intros [r | purchase user product now Hin Hid].
  - destruct (serve_database db r) as [-> | (user & fresh & F & ->)];
      [apply Z.le_refl |].
    unfold high_water, with_users. cbn [purchases purchases_seq].
    apply Z.le_refl.
  - destruct (record_purchase_writes_cases db purchase user product now)
      as [(_ & e & ->) | [_ ->]]; cbn [fst]; [apply Z.le_refl |].
    rewrite high_water_recorded. lia.
Qed.

Lemma steps_high_water {E : PatternEngine} db db' :
  clos_refl_trans _ step db db' -> high_water db <= high_water db'.
Proof.
  induction 1 as [a b S | a | a b c _ IH1 _ IH2].
  - now apply step_high_water.
  - lia.
  - lia.
Qed.

(** ** Recording a purchase *)

(** C10: the user lookup comes first, so a request whose user identifier
    and product identifier both fail to resolve is answered with
    404 "User not found", and the file is left as it was. *)
Theorem record_purchase_checks_user_first db purchase now :
  resolves_user (user_id purchase) db = false ->
  resolves_product (product_id purchase) db = false ->
  with_connection (record_purchase purchase now) db
  = (db, inl (HTTPException 404 "User not found")).
Proof. intros H _. now apply record_purchase_user_missing. Qed.

Lemma record_purchase_checks_user_first_witness :
  with_connection
    (record_purchase {| user_id := carla; product_id := kettle |} noon)
    sample_db
  = (sample_db, inl (HTTPException 404 "User not found")).
Proof.
  apply record_purchase_checks_user_first; reflexivity.
Defined.

(** C1, where the code departs from it: for a request whose user and
    product both exist, [record_purchase] does not reach its writes; the
    product lookup raises [OperationalError] (no column [product_id] in
    [products]) and the file is left as it was: no score is changed and
    no purchase is appended. *)
Theorem record_purchase_raises_for_existing_rows db purchase now :
  resolves_user (user_id purchase) db = true ->
  resolves_product (product_id purchase) db = true ->
  with_connection (record_purchase purchase now) db
  = (db, inl (OperationalError "no such column: product_id")).
Proof. intros H _. now apply record_purchase_user_present. Qed.

Lemma record_purchase_raises_for_existing_rows_witness :
  with_connection
    (record_purchase {| user_id := asha; product_id := lamp |} noon)
    sample_db
  = (sample_db, inl (OperationalError "no such column: product_id")).
Proof.
  apply record_purchase_raises_for_existing_rows; reflexivity.
Defined.

(** C4, where the code departs from it: for an existing user and a
    product identifier that does not resolve, the failure is not
    404 "Product not found" but the [OperationalError] of the product
    lookup; the file is left as it was. *)
Theorem record_purchase_missing_product_raises db purchase now :
  resolves_user (user_id purchase) db = true ->
  resolves_product (product_id purchase) db = false ->
  with_connection (record_purchase purchase now) db
  = (db, inl (OperationalError "no such column: product_id")).
Proof. intros H _. now apply record_purchase_user_present. Qed.

Lemma record_purchase_missing_product_raises_witness :
  with_connection
    (record_purchase {| user_id := asha; product_id := kettle |} noon)
    sample_db
  = (sample_db, inl (OperationalError "no such column: product_id")).
Proof.
  apply record_purchase_missing_product_raises; reflexivity.
Defined.

(** No failure of [record_purchase], and no failure of its writes, leaves
    a partial update in the file. *)
Lemma record_purchase_failure_keeps_file db purchase now db' e :
  with_connection (record_purchase purchase now) db = (db', inl e) ->
  db' = db.
Proof.
  intros H. rewrite <- (with_connection_record_purchase db purchase now).
  now rewrite H.
Qed.

Lemma record_purchase_writes_failure_keeps_file
    db purchase user product now db' e :
  with_connection (record_purchase_writes purchase user product now) db
  = (db', inl e) ->
  db' = db.
Proof.
  destruct (record_purchase_writes_cases db purchase user product now)
    as [(_ & e' & ->) | [_ ->]]; [| discriminate].
  intros T. now injection T as <- _.
Qed.

(** ** Listing purchases *)

(** C6, where the code departs from it: [get_user_purchases] raises
    [NameError] at its first statement for every user identifier,
    existing or not; it returns no list and no 404. *)
Theorem get_user_purchases_raises_name_error db user_id :
  with_connection (get_user_purchases user_id) db
  = (db, inl (NameError "get_db_connection")).
Proof. apply with_connection_get_user_purchases. Qed.

(** ** Registration *)





Example registration_rejects_short_phone :
  post_users (E := ascii_engine)
    {| phone_number := "12345"; name := "Dee" |} carla sample_db
  = (sample_db, inl (RequestValidationError "phone_number")).
Proof. reflexivity. Qed.

Example registration_rejects_known_phone {E : PatternEngine} :
  post_users {| phone_number := "5550100001"; name := "Dee" |}
             carla sample_db
  = (sample_db, inl (HTTPException 400 "Phone number already registered")).
Proof.
  rewrite post_users_eq. cbn [phone_number].
  rewrite (phone_number_pattern_ascii "5550100001" eq_refl). reflexivity.
Qed.

(** ** The ledger *)

Lemma sample_db_consistent : consistent sample_db.
Proof.
  constructor.
  - intros u [<- | [<- | []]]; reflexivity.
  - unfold user_ids_unique. cbn.
    repeat constructor; cbn; intuition discriminate.
  - intros p [<- | []]. cbn. auto.
Qed.




(** C9: purchase identifiers follow the order of recording, not the
    timestamps: of two recordings that both complete, with any requests
    and recordings in between, the earlier one receives the strictly
    smaller identifier, whatever the two timestamps are. *)
Theorem purchase_ids_strictly_increase {E : PatternEngine}
    db purchase1 user1 product1 now1 r1
    db2 purchase2 user2 product2 now2 r2 :
  snd (with_connection
         (record_purchase_writes purchase1 user1 product1 now1) db)
  = inr r1 ->
  clos_refl_trans database step
    (fst (with_connection
            (record_purchase_writes purchase1 user1 product1 now1) db))
    db2 ->
  snd (with_connection
         (record_purchase_writes purchase2 user2 product2 now2) db2)
  = inr r2 ->
  pr_id r1 < pr_id r2.
Proof.
  destruct (with_connection
              (record_purchase_writes purchase1 user1 product1 now1) db)
    as [db1 o1] eqn:E1.
  destruct (with_connection
              (record_purchase_writes purchase2 user2 product2 now2) db2)
    as [db3 o2] eqn:E2.
  cbn [fst snd]. intros -> S ->.
  apply high_water_after_writes in E1, E2.
  apply steps_high_water in S. lia.
Qed.

Lemma purchase_ids_strictly_increase_witness :
  pr_id {| pr_id := 2; pr_user_id := asha; pr_product_id := lamp;
           pr_timestamp := noon; pr_impact_on_green_score := 24 |}
  < pr_id {| pr_id := 3; pr_user_id := ben; pr_product_id := lamp;
             pr_timestamp := noon; pr_impact_on_green_score := 24 |}.
Proof.
  apply (purchase_ids_strictly_increase (E := ascii_engine)
           sample_db {| user_id := asha; product_id := lamp |}
           asha_row lamp_row noon _
           (fst (serve (E := ascii_engine) (GET_green_score asha)
                   (fst (with_connection
                           (record_purchase_writes
                              {| user_id := asha; product_id := lamp |}
                              asha_row lamp_row noon)
                           sample_db))))
           {| user_id := ben; product_id := lamp |}
           ben_row lamp_row noon _).
  - reflexivity.
  - apply rt_step. apply step_serve.
  - reflexivity.
Defined.

(* ================================================================== *)
(** * Part III: further properties of the code                         *)
(* ================================================================== *)

(** ** Start-up *)

(** X5: start-up can be repeated: running it twice leaves the file as
    running it once; afterwards the three tables are there; a table that
    was there keeps its rows and its rowid counter, a missing one starts
    empty; a new file becomes the empty store. *)
Theorem on_startup_idempotent_keeps_rows (f : db_file) :
  on_startup (on_startup f) = on_startup f
  /\ (exists db,
        store (on_startup f) = Some db
        /\ users db = match file_users f with Some rows => rows | None => [] end
        /\ products db
           = match file_products f with Some rows => rows | None => [] end
        /\ (purchases db, purchases_seq db)
           = match file_purchases f with Some t => t | None => ([], 0) end)
  /\ (forall db, store f = Some db -> store (on_startup f) = Some db)
  /\ store (on_startup new_file) = Some init_db.
Proof.
  destruct f as [[us |] [ps |] [[bs seq] |]]; cbn;
    repeat split; try (eexists; repeat split; reflexivity);
    try (intros db H; first [exact H | discriminate H]).
Qed.

Lemma on_startup_idempotent_keeps_rows_witness :
  store (on_startup
           {| file_users := Some (users sample_db);
              file_products := Some (products sample_db);
              file_purchases :=
                Some (purchases sample_db, purchases_seq sample_db) |})
  = Some sample_db.
Proof.
  apply (proj1 (proj2 (proj2 (on_startup_idempotent_keeps_rows _)))).
  reflexivity.
Defined.

(** ** Transitions of the store, case by case *)

(** A transition leaves the file as it was, or appends a validated user
    with an unused identifier and an unused phone number, or commits the
    two writes of a recording. *)
Lemma step_cases {E : PatternEngine} db db' :
  step db db' ->
  db' = db
  \/ (exists user fresh,
        phone_number_pattern (phone_number user) = true
        /\ phone_registered (phone_number user) db = false
        /\ resolves_user fresh db = false
        /\ db' = with_users (users db ++ [new_user_row user fresh]) db)
  \/ (exists purchase user product now,
        In user (users db)
        /\ u_id user = str (user_id purchase)
        /\ writes_commit purchase user product db = true
        /\ db' = recorded purchase user product now db).
Proof.
  intros [r | purchase user product now Hin Hid].
  - destruct r as [body fresh | id | id | body now | id]; cbn [serve];
      rewrite fst_tagged.
    + rewrite post_users_eq.
      destruct (phone_number_pattern (phone_number body)) eqn:V;
        cbn [negb]; [| now left].
      destruct (phone_registered (phone_number body) db) eqn:P;
        [now left |].
      destruct (resolves_user fresh db) eqn:F; [now left |].
      right. left. exists body, fresh. auto.
    + left. apply with_connection_get_user.
    + left. apply with_connection_get_green_score.
    + left. apply with_connection_record_purchase.
    + left. now rewrite with_connection_get_user_purchases.
  - destruct (record_purchase_writes_cases db purchase user product now)
      as [(_ & e & ->) | [W ->]]; cbn [fst]; [now left |].
    right. right. exists purchase, user, product, now. auto.
Qed.

(** What every transition keeps, every sequence of transitions keeps. *)
Lemma steps_invariant {E : PatternEngine} (P : database -> Prop) :
  (forall a b, P a -> step a b -> P b) ->
  forall a b, clos_refl_trans database step a b -> P a -> P b.
Proof.
  intros H a b S. induction S as [a b S | a | a b c _ IH1 _ IH2]; eauto.
Qed.

(** ** Reading users *)

Lemma fetchone_filter_find {R} (f : R -> bool) (l : list R) :
  fetchone (filter f l) = find f l.
Proof.
  induction l as [| x l IH]; cbn; [reflexivity |].
  destruct (f x); [reflexivity | exact IH].
Qed.

Lemma find_existsb_false {R} (f : R -> bool) (l : list R) :
  existsb f l = false -> find f l = None.
Proof.
  intros H. rewrite <- fetchone_filter_find. now apply fetchone_filter_none.
Qed.

Lemma find_snoc_new {R} (f : R -> bool) (l : list R) (x : R) :
  existsb f l = false -> f x = true -> find f (l ++ [x]) = Some x.
Proof.
  induction l as [| y l IH]; cbn; intros H Hx.
  - now rewrite Hx.
  - apply orb_false_iff in H. destruct H as [-> H]. now apply IH.
Qed.

(** [GET /users/{id}]: the first row with that identifier, or 404. *)
Lemma with_connection_get_user_eq id db :
  with_connection (get_user id) db
  = (db,
     match find (fun u => u_id u =? str id) (users db) with
     | Some row =>
         inr {| ur_id := u_id row; ur_phone_number := u_phone_number row;
                ur_name := u_name row; ur_green_score := u_green_score row |}
     | None => inl (HTTPException 404 "User not found")
     end).
Proof.
  unfold with_connection, get_user, bind. rewrite select_users_by_id.
  cbn [pending connect]. rewrite fetchone_filter_find.
  now destruct (find _ _).
Qed.

Lemma with_connection_get_green_score_eq id db :
  with_connection (get_green_score id) db
  = (db,
     match find (fun u => u_id u =? str id) (users db) with
     | Some row =>
         inr {| gs_user_id := u_id row; gs_green_score := u_green_score row |}
     | None => inl (HTTPException 404 "User not found")
     end).
Proof.
  unfold with_connection, get_green_score, bind. rewrite select_users_by_id.
  cbn [pending connect]. rewrite fetchone_filter_find.
  now destruct (find _ _).
Qed.

(** X10: the two reads of a user agree.  Neither changes the store; for
    an identifier that resolves both succeed, report that identifier, and
    the score of [GET /users/{id}/green-score] is the score of
    [GET /users/{id}]; for one that does not, both answer
    404 "User not found". *)
Theorem user_reads_agree (id : UUID) (db : database) :
  fst (with_connection (get_user id) db) = db
  /\ fst (with_connection (get_green_score id) db) = db
  /\ if resolves_user id db
     then exists u g,
            snd (with_connection (get_user id) db) = inr u
            /\ snd (with_connection (get_green_score id) db) = inr g
            /\ ur_id u = id /\ gs_user_id g = id
            /\ gs_green_score g = ur_green_score u
     else snd (with_connection (get_user id) db)
          = inl (HTTPException 404 "User not found")
          /\ snd (with_connection (get_green_score id) db)
             = inl (HTTPException 404 "User not found").
Proof.
  rewrite with_connection_get_user_eq, with_connection_get_green_score_eq.
  cbn [fst snd]. repeat split.
  destruct (resolves_user id db) eqn:R; unfold resolves_user in R.
  - destruct (fetchone_filter_some _ _ R) as (row & E & _ & T).
    rewrite fetchone_filter_find in E. rewrite E.
    apply String.eqb_eq in T. eexists. eexists.
    repeat split; cbn; exact T.
  - now rewrite (find_existsb_false _ _ R).
Qed.

(** X11: in a store that satisfies the ledger invariant, the score that
    [GET /users/{id}/green-score] returns for an existing user is the
    sum of the impacts of the purchases recorded for that user, as the
    recordings accumulated it. *)
Theorem green_score_is_impact_sum (id : UUID) (db : database) :
  consistent db -> resolves_user id db = true ->
  exists g,
    with_connection (get_green_score id) db = (db, inr g)
    /\ gs_user_id g = id
    /\ gs_green_score g = impact_sum (str id) (purchases db).
Proof.
  intros C R. rewrite with_connection_get_green_score_eq.
  unfold resolves_user in R.
  destruct (fetchone_filter_some _ _ R) as (row & F & Hin & T).
  rewrite fetchone_filter_find in F. rewrite F.
  apply String.eqb_eq in T. eexists. split; [reflexivity |].
  cbn [gs_user_id gs_green_score]. split; [exact T |].
  rewrite <- T. now apply (cons_scores db C).
Qed.

Lemma green_score_is_impact_sum_witness :
  exists g,
    with_connection (get_green_score asha) sample_db = (sample_db, inr g)
    /\ gs_user_id g = asha
    /\ gs_green_score g = impact_sum (str asha) (purchases sample_db).
Proof.
  apply green_score_is_impact_sum; [| reflexivity].
  constructor.
  - intros u [<- | [<- | []]]; reflexivity.
  - unfold user_ids_unique. cbn.
    repeat constructor; cbn; intuition discriminate.
  - intros p [<- | []]. cbn. auto.
Defined.

(** ** Registration *)

(** X6: a registration that succeeds can be read back: [GET /users/{id}]
    with the new identifier returns exactly the record that registration
    returned, and [GET /users/{id}/green-score] returns the score 0. *)
Theorem registration_reads_back {E : PatternEngine} body fresh db r :
  snd (post_users body fresh db) = inr r ->
  with_connection (get_user fresh) (fst (post_users body fresh db))
  = (fst (post_users body fresh db), inr r)
  /\ with_connection (get_green_score fresh) (fst (post_users body fresh db))
     = (fst (post_users body fresh db),
        inr {| gs_user_id := fresh; gs_green_score := 0%float |}).
Proof.
  rewrite post_users_eq.
  destruct (negb _); [discriminate |].
  destruct (phone_registered _ _); [discriminate |].
  destruct (resolves_user fresh db) eqn:F; [discriminate |].
  cbn [fst snd]. intros Hr. injection Hr as <-.
  rewrite with_connection_get_user_eq, with_connection_get_green_score_eq.
  unfold with_users. cbn [users].
  rewrite (find_snoc_new _ _ (new_user_row body fresh) F)
    by apply String.eqb_refl.
  split; reflexivity.
Qed.

Lemma registration_reads_back_witness :
  with_connection (get_user carla)
    (fst (post_users (E := ascii_engine)
            {| phone_number := "5550100003"; name := "Carla" |}
            carla sample_db))
  = (fst (post_users (E := ascii_engine)
            {| phone_number := "5550100003"; name := "Carla" |}
            carla sample_db),
     inr {| ur_id := carla; ur_phone_number := "5550100003";
            ur_name := "Carla"; ur_green_score := 0%float |}).
Proof.
  apply (registration_reads_back (E := ascii_engine)). reflexivity.
Defined.

(** X9: a request that fails, whatever the error, leaves the store
    exactly as it was: no handler commits before it raises. *)
Theorem failed_request_keeps_store {E : PatternEngine} r db db' e :
  serve r db = (db', inl e) -> db' = db.
Proof.
  intros H. assert (F : fst (serve r db) = db') by now rewrite H.
  rewrite <- F. clear F.
  destruct r as [body fresh | id | id | body now | id]; cbn [serve] in *.
  - rewrite post_users_eq in *.
    destruct (negb _); [reflexivity |].
    destruct (phone_registered _ _); [reflexivity |].
    destruct (resolves_user fresh db); [reflexivity |].
    discriminate H.
  - rewrite fst_tagged. apply with_connection_get_user.
  - rewrite fst_tagged. apply with_connection_get_green_score.
  - rewrite fst_tagged. apply with_connection_record_purchase.
  - reflexivity.
Qed.

Lemma failed_request_keeps_store_witness :
  fst (serve (E := ascii_engine)
         (POST_users {| phone_number := "5550100001"; name := "Dee" |}
                     carla) sample_db)
  = sample_db.
Proof.
  apply (failed_request_keeps_store (E := ascii_engine)
           (POST_users {| phone_number := "5550100001"; name := "Dee" |}
                       carla)
           sample_db _
           (HTTPException 400 "Phone number already registered")).
  reflexivity.
Defined.

(** ** What transitions keep of the users *)

Lemma credited_identity uid score us :
  map user_identity (credited uid score us) = map user_identity us.
Proof.
  unfold credited. rewrite map_map. apply map_ext.
  intros u. now destruct (u_id u =? uid).
Qed.

Lemma credited_phones uid score us :
  map u_phone_number (credited uid score us) = map u_phone_number us.
Proof.
  unfold credited. rewrite map_map. apply map_ext.
  intros u. now destruct (u_id u =? uid).
Qed.

Lemma existsb_phone_map (phone : string) (us : list user_row) :
  existsb (fun u => u_phone_number u =? phone) us
  = existsb (fun p => p =? phone) (map u_phone_number us).
Proof.
  induction us as [| u us IH]; cbn; [reflexivity | now rewrite IH].
Qed.

Lemma existsb_phone_false (phone : string) (us : list user_row) :
  existsb (fun u => u_phone_number u =? phone) us = false
  <-> ~ In phone (map u_phone_number us).
Proof.
  induction us as [| u us IH]; cbn.
  - tauto.
  - rewrite orb_false_iff, IH, String.eqb_neq. tauto.
Qed.

(** The users of a store are those of any earlier store, in the same
    order and with the same identifier, phone number and name, followed
    by the ones registered since. *)
Lemma step_users {E : PatternEngine} db db' :
  step db db' ->
  exists added,
    map user_identity (users db')
    = (map user_identity (users db) ++ map user_identity added)%list.
Proof.
  intros S.
  destruct (step_cases db db' S)
    as [-> | [(user & fresh & _ & _ & _ & ->)
             | (purchase & user & product & now & _ & _ & _ & ->)]].
  - exists []. cbn. now rewrite app_nil_r.
  - exists [new_user_row user fresh]. unfold with_users. cbn [users].
    now rewrite map_app.
  - exists []. unfold recorded. cbn [users map].
    now rewrite credited_identity, app_nil_r.
Qed.

Lemma step_phone_registered {E : PatternEngine} phone db db' :
  step db db' ->
  phone_registered phone db = true -> phone_registered phone db' = true.
Proof.
  intros S. unfold phone_registered.
  destruct (step_cases db db' S)
    as [-> | [(user & fresh & _ & _ & _ & ->)
             | (purchase & user & product & now & _ & _ & _ & ->)]].
  - auto.
  - unfold with_users. cbn [users]. rewrite existsb_app.
    intros ->. reflexivity.
  - unfold recorded. cbn [users].
    rewrite !existsb_phone_map, credited_phones. auto.
Qed.

(** X7: a phone number stays taken.  After a registration that succeeded,
    and whatever requests and recordings follow, every further
    registration with that phone number, under any name, is refused with
    400 "Phone number already registered" and changes nothing. *)
Theorem registered_phone_stays_taken {E : PatternEngine}
    body fresh db r later name' fresh' :
  snd (post_users body fresh db) = inr r ->
  clos_refl_trans database step (fst (post_users body fresh db)) later ->
  post_users {| phone_number := phone_number body; name := name' |}
             fresh' later
  = (later, inl (HTTPException 400 "Phone number already registered")).
Proof.
  rewrite (post_users_eq db).
  destruct (phone_number_pattern (phone_number body)) eqn:V; cbn [negb];
    [| discriminate].
  destruct (phone_registered (phone_number body) db); [discriminate |].
  destruct (resolves_user fresh db); [discriminate |].
  cbn [fst snd]. intros _ S.
  assert (P : phone_registered (phone_number body) later = true).
  { refine (steps_invariant
              (fun d => phone_registered (phone_number body) d = true)
              _ _ _ S _).
    - intros a b Ha Sab. now apply (step_phone_registered _ a b).
    - unfold phone_registered, with_users. cbn [users].
      rewrite existsb_app. cbn. rewrite String.eqb_refl.
      now rewrite orb_true_r. }
  rewrite post_users_eq. cbn [phone_number]. now rewrite V, P.
Qed.

Lemma registered_phone_stays_taken_witness :
  post_users (E := ascii_engine)
    {| phone_number := "5550100003"; name := "Imposter" |} kettle
    (fst (serve (E := ascii_engine) (GET_user asha)
            (fst (post_users (E := ascii_engine)
                    {| phone_number := "5550100003"; name := "Carla" |}
                    carla sample_db))))
  = (fst (serve (E := ascii_engine) (GET_user asha)
            (fst (post_users (E := ascii_engine)
                    {| phone_number := "5550100003"; name := "Carla" |}
                    carla sample_db))),
     inl (HTTPException 400 "Phone number already registered")).
Proof.
  apply (registered_phone_stays_taken (E := ascii_engine)
           {| phone_number := "5550100003"; name := "Carla" |} carla
           sample_db
           {| ur_id := carla; ur_phone_number := "5550100003";
              ur_name := "Carla"; ur_green_score := 0%float |}).
  - reflexivity.
  - apply rt_step. apply step_serve.
Defined.

Lemma step_phones_wellformed {E : PatternEngine} db db' :
  phones_wellformed db -> step db db' -> phones_wellformed db'.
Proof.
  intros [N V] S.
  destruct (step_cases db db' S)
    as [-> | [(user & fresh & Hv & Hp & _ & ->)
             | (purchase & user & product & now & _ & _ & _ & ->)]].
  - now split.
  - unfold phones_wellformed, with_users. cbn [users]. split.
    + rewrite map_app. cbn [map new_user_row u_phone_number].
      apply NoDup_app; [exact N | repeat constructor; intros [] |].
      intros a Ha [<- | []].
      unfold phone_registered in Hp. apply existsb_phone_false in Hp.
      now apply Hp.
    + intros u. rewrite in_app_iff. intros [H | [<- | []]];
        [now apply V | exact Hv].
  - unfold phones_wellformed, recorded. cbn [users]. split.
    + now rewrite credited_phones.
    + intros u' H'.
      apply (in_map u_phone_number) in H'. rewrite credited_phones in H'.
      apply in_map_iff in H'. destruct H' as (u & Hp & Hu).
      rewrite <- Hp. now apply V.
Qed.

(** X8: every stored phone number matches the pattern of line 61 and
    belongs to one user only; requests and recordings, in any number,
    keep it so. *)
Theorem phones_stay_wellformed {E : PatternEngine} db db' :
  phones_wellformed db ->
  clos_refl_trans database step db db' ->
  phones_wellformed db'.
Proof.
  intros W S. refine (steps_invariant phones_wellformed _ _ _ S W).
  intros a b Ha Sab. now apply (step_phones_wellformed a b).
Qed.

Lemma phones_stay_wellformed_witness :
  phones_wellformed (E := ascii_engine)
    (fst (serve (E := ascii_engine)
            (POST_users
               {| phone_number := "5550100003"; name := "Carla" |} carla)
            sample_db)).
Proof.
  apply (phones_stay_wellformed (E := ascii_engine) sample_db).
  - split.
    + cbn. repeat constructor; cbn; intuition discriminate.
    + intros u [<- | [<- | []]]; reflexivity.
  - apply rt_step. apply step_serve.
Defined.

(** ** What requests never do *)

(** X13: as the handlers stand, no request changes a row that exists: a
    request leaves every user row (score included), the products, the
    purchases and the rowid counter as they were; the only change a
    request can make is to append a user. *)
Theorem requests_only_append_users {E : PatternEngine}
    (r : request) (db : database) :
  (exists added, users (fst (serve r db)) = (users db ++ added)%list)
  /\ products (fst (serve r db)) = products db
  /\ purchases (fst (serve r db)) = purchases db
  /\ purchases_seq (fst (serve r db)) = purchases_seq db.
Proof.
  destruct (serve_database db r) as [-> | (user & fresh & _ & ->)].
  - repeat split. exists []. now rewrite app_nil_r.
  - unfold with_users. cbn [users products purchases purchases_seq].
    repeat split. now exists [new_user_row user fresh].
Qed.

(** ** The writes of a recording *)

(** X12: the two writes of a recording are all or nothing.  When the
    rowids of [purchases] are used up, the [UPDATE] of the score has been
    executed on the connection (unless it was refused, the new score not
    being a number), the [INSERT] raises, and nothing reaches the file:
    the score in the store is the old one. *)
Theorem recording_writes_are_atomic purchase user product now db :
  max_rowid <= high_water db ->
  record_purchase_writes purchase user product now (connect db)
  = (if is_nan (new_green_score user product)
        && resolves_user (user_id purchase) db
     then
       (connect db,
        inl (IntegrityError "NOT NULL constraint failed: users.green_score"))
     else
       ({| committed := db;
           pending :=
             with_users
               (credited (str (user_id purchase))
                  (new_green_score user product) (users db))
               db |},
        inl (OperationalError "database or disk is full")))
  /\ with_connection (record_purchase_writes purchase user product now) db
     = (db,
        inl (if is_nan (new_green_score user product)
                && resolves_user (user_id purchase) db
             then IntegrityError
                    "NOT NULL constraint failed: users.green_score"
             else OperationalError "database or disk is full")).
Proof.
  intros L. apply Z.leb_le in L.
  unfold with_connection, record_purchase_writes, bind, update_green_score,
    insert_purchase.
  cbn [pending committed connect users products purchases purchases_seq].
  fold (new_green_score user product).
  change (existsb (fun u => u_id u =? str (user_id purchase)) (users db))
    with (resolves_user (user_id purchase) db).
  destruct (is_nan (new_green_score user product)
            && resolves_user (user_id purchase) db);
    [split; reflexivity |].
  cbn [pending committed users products purchases purchases_seq].
  fold (high_water db). rewrite L. split; reflexivity.
Qed.

Lemma recording_writes_are_atomic_witness :
  with_connection
    (record_purchase_writes {| user_id := asha; product_id := lamp |}
                            asha_row lamp_row noon)
    full_db
  = (full_db, inl (OperationalError "database or disk is full")).
Proof.
  apply (proj2 (recording_writes_are_atomic
                  {| user_id := asha; product_id := lamp |}
                  asha_row lamp_row noon full_db
                  ltac:(vm_compute; discriminate))).
Defined.

(** X14: a recording that commits touches one user only: every row of
    another user is in the store unchanged, no user is added or removed,
    identifiers, phone numbers and names stay, and the products are not
    written. *)
Theorem recording_writes_frame purchase user product now db db' r :
  with_connection (record_purchase_writes purchase user product now) db
  = (db', inr r) ->
  (forall u, In u (users db) -> u_id u <> str (user_id purchase) ->
             In u (users db'))
  /\ map user_identity (users db') = map user_identity (users db)
  /\ products db' = products db.
Proof.
  destruct (record_purchase_writes_cases db purchase user product now)
    as [(_ & e & ->) | [_ ->]]; [discriminate |].
  intros Hr. injection Hr as <- _. unfold recorded. cbn [users products].
  split; [| split; [apply credited_identity | reflexivity]].
  intros u Hu Hn. unfold credited. apply in_map_iff. exists u.
  apply String.eqb_neq in Hn. now rewrite Hn.
Qed.

Lemma recording_writes_frame_witness :
  (forall u, In u (users sample_db) -> u_id u <> str asha ->
     In u (users (fst (with_connection
                         (record_purchase_writes
                            {| user_id := asha; product_id := lamp |}
                            asha_row lamp_row noon)
                         sample_db))))
  /\ map user_identity
       (users (fst (with_connection
                      (record_purchase_writes
                         {| user_id := asha; product_id := lamp |}
                         asha_row lamp_row noon)
                      sample_db)))
     = map user_identity (users sample_db)
  /\ products (fst (with_connection
                      (record_purchase_writes
                         {| user_id := asha; product_id := lamp |}
                         asha_row lamp_row noon)
                      sample_db))
     = products sample_db.
Proof.
  apply (recording_writes_frame
           {| user_id := asha; product_id := lamp |} asha_row lamp_row noon
           sample_db _
           {| pr_id := 2; pr_user_id := asha; pr_product_id := lamp;
              pr_timestamp := noon; pr_impact_on_green_score := 24%float |}).
  reflexivity.
Defined.

(** ** History *)

Lemma step_history {E : PatternEngine} db db' :
  step db db' ->
  products db' = products db
  /\ (exists added, purchases db' = (purchases db ++ added)%list)
  /\ (exists added,
        map user_identity (users db')
        = (map user_identity (users db) ++ map user_identity added)%list).
Proof.
  intros S. split; [| split; [| now apply step_users]].
  - destruct (step_cases db db' S)
      as [-> | [(user & fresh & _ & _ & _ & ->)
               | (purchase & user & product & now & _ & _ & _ & ->)]];
      reflexivity.
  - destruct (step_cases db db' S)
      as [-> | [(user & fresh & _ & _ & _ & ->)
               | (purchase & user & product & now & _ & _ & _ & ->)]].
    + exists []. now rewrite app_nil_r.
    + exists []. unfold with_users. cbn [purchases]. now rewrite app_nil_r.
    + eexists. unfold recorded. cbn [purchases]. reflexivity.
Qed.

(** X15: the store only grows.  Along any sequence of requests and
    recordings the products are never written, the purchases recorded so
    far stay as they are at the head of the table (none is deleted or
    rewritten), and the users registered so far stay, in order, with
    their identifier, phone number and name. *)
Theorem store_only_grows {E : PatternEngine} db db' :
  clos_refl_trans database step db db' ->
  products db' = products db
  /\ (exists added, purchases db' = (purchases db ++ added)%list)
  /\ (exists added,
        map user_identity (users db')
        = (map user_identity (users db) ++ map user_identity added)%list).
Proof.
  intros S.
  refine (steps_invariant
            (fun d =>
               products d = products db
               /\ (exists added, purchases d = (purchases db ++ added)%list)
               /\ (exists added,
                     map user_identity (users d)
                     = (map user_identity (users db)
                        ++ map user_identity added)%list))
            _ _ _ S _).
  - intros a b (Hp & (bs & Hb) & (us & Hu)) Sab.
    destruct (step_history a b Sab) as (Hp' & (bs' & Hb') & (us' & Hu')).
    split; [congruence |]. split.
    + exists (bs ++ bs')%list. rewrite Hb', Hb. now rewrite app_assoc.
    + exists (us ++ us')%list. rewrite Hu', Hu, map_app.
      now rewrite app_assoc.
  - split; [reflexivity |].
    split; exists []; cbn; now rewrite app_nil_r.
Qed.

Lemma store_only_grows_witness :
  products (fst (serve (E := ascii_engine)
                   (POST_users
                      {| phone_number := "5550100003"; name := "Carla" |}
                      carla) sample_db))
  = products sample_db
  /\ (exists added,
        purchases (fst (serve (E := ascii_engine)
                          (POST_users
                             {| phone_number := "5550100003";
                                name := "Carla" |}
                             carla) sample_db))
        = (purchases sample_db ++ added)%list)
  /\ (exists added,
        map user_identity
          (users (fst (serve (E := ascii_engine)
                         (POST_users
                            {| phone_number := "5550100003";
                               name := "Carla" |}
                            carla) sample_db)))
        = (map user_identity (users sample_db)
           ++ map user_identity added)%list).
Proof.
  apply (store_only_grows (E := ascii_engine)).
  apply rt_step. apply step_serve.
Defined.

(** ** Rowids of the purchases *)

Lemma largest_rowid_bounds rows p :
  In p rows -> b_id p <= largest_rowid rows.
Proof.
  unfold largest_rowid. induction rows as [| q rows IH]; cbn [In fold_right].
  - intros [].
  - intros [-> | H]; [lia | specialize (IH H); lia].
Qed.

Lemma largest_rowid_below rows m :
  0 <= m -> (forall p, In p rows -> b_id p <= m) -> largest_rowid rows <= m.
Proof.
  intros Hm. unfold largest_rowid.
  induction rows as [| q rows IH]; cbn [fold_right]; intros H; [exact Hm |].
  assert (b_id q <= m) by (apply H; now left).
  assert (fold_right (fun r k => Z.max (b_id r) k) 0 rows <= m)
    by (apply IH; intros p Hp; apply H; now right).
  lia.
Qed.

Lemma step_purchase_ids_unique {E : PatternEngine} db db' :
  purchase_ids_unique db -> step db db' -> purchase_ids_unique db'.
Proof.
  unfold purchase_ids_unique. intros N S.
  destruct (step_cases db db' S)
    as [-> | [(user & fresh & _ & _ & _ & ->)
             | (purchase & user & product & now & _ & _ & _ & ->)]];
    [exact N | exact N |].
  unfold recorded. cbn [purchases]. rewrite map_app.
  cbn [map new_purchase_row b_id].
  apply NoDup_app; [exact N | repeat constructor; intros [] |].
  intros a Ha [<- | []]. apply in_map_iff in Ha.
  destruct Ha as (p & Hb & Hp).
  pose proof (largest_rowid_bounds _ _ Hp). unfold high_water in Hb. lia.
Qed.

(** X16: purchase identifiers are a key: in a store where no two
    purchases share an identifier, no sequence of requests and recordings
    produces two that do. *)
Theorem purchase_ids_stay_unique {E : PatternEngine} db db' :
  purchase_ids_unique db ->
  clos_refl_trans database step db db' ->
  purchase_ids_unique db'.
Proof.
  intros U S. refine (steps_invariant purchase_ids_unique _ _ _ S U).
  intros a b Ha Sab. now apply (step_purchase_ids_unique a b).
Qed.

Lemma purchase_ids_stay_unique_witness :
  purchase_ids_unique
    (fst (with_connection
            (record_purchase_writes {| user_id := asha; product_id := lamp |}
                                    asha_row lamp_row noon)
            sample_db)).
Proof.
  apply (purchase_ids_stay_unique (E := ascii_engine) sample_db).
  - unfold purchase_ids_unique. cbn. repeat constructor. intros [].
  - apply rt_step. apply step_writes; [cbn; auto | reflexivity].
Defined.

Lemma step_purchase_ids_dense {E : PatternEngine} db db' :
  purchase_ids_dense db -> step db db' -> purchase_ids_dense db'.
Proof.
  unfold purchase_ids_dense. intros [Hids Hseq] S.
  destruct (step_cases db db' S)
    as [-> | [(user & fresh & _ & _ & _ & ->)
             | (purchase & user & product & now & _ & _ & _ & ->)]];
    [now split | now split |].
  unfold recorded. cbn [purchases purchases_seq].
  assert (Hw : high_water db = Z.of_nat (List.length (purchases db))).
  { unfold high_water. rewrite Hseq.
    pose proof (largest_rowid_nonneg (purchases db)).
    assert (largest_rowid (purchases db)
            <= Z.of_nat (List.length (purchases db))).
    { apply largest_rowid_below; [lia |]. intros p Hp.
      apply (in_map b_id) in Hp. rewrite Hids in Hp.
      apply in_map_iff in Hp. destruct Hp as (k & <- & Hk).
      apply in_seq in Hk. lia. }
    lia. }
  rewrite Hw, length_app, map_app. cbn [List.length map new_purchase_row b_id].
  rewrite Nat.add_1_r, seq_S, map_app, Hids. cbn [map].
  split; [f_equal; f_equal; lia | lia].
Qed.

(** X17: every store that requests and recordings can produce from the
    empty store of [init_db] satisfies the ledger invariant (each score
    is the running binary64 sum of the user's impacts), holds only phone
    numbers that match the pattern and are pairwise distinct, and numbers its
    purchases 1, 2, 3, ... in the order of recording, without gaps, the
    rowid counter standing at their number. *)
Theorem reachable_store_invariants {E : PatternEngine} db :
  clos_refl_trans database step init_db db ->
  consistent db /\ phones_wellformed db /\ purchase_ids_dense db.
Proof.
  intros S.
  refine (steps_invariant
            (fun d => consistent d /\ phones_wellformed d
                      /\ purchase_ids_dense d)
            _ _ _ S _).
  - intros a b (C & W & D) Sab. split; [| split].
    + exact (step_consistent a C b Sab).
    + now apply (step_phones_wellformed a b).
    + now apply (step_purchase_ids_dense a b).
  - split; [| split].
    + constructor.
      * intros u [].
      * constructor.
      * intros p [].
    + split; [constructor | intros u []].
    + split; reflexivity.
Qed.

Lemma reachable_store_invariants_witness :
  consistent
    (fst (with_connection
            (record_purchase_writes
               {| user_id := carla; product_id := lamp |}
               (new_user_row
                  {| phone_number := "5550100003"; name := "Carla" |} carla)
               lamp_row noon)
            (fst (serve (E := ascii_engine)
                    (POST_users
                       {| phone_number := "5550100003"; name := "Carla" |}
                       carla)
                    init_db)))).
Proof.
  apply (reachable_store_invariants (E := ascii_engine)).
  apply rt_trans with
    (fst (serve (E := ascii_engine)
            (POST_users
               {| phone_number := "5550100003"; name := "Carla" |} carla)
            init_db)).
  - apply rt_step. apply step_serve.
  - apply rt_step. apply step_writes; [cbn; auto | reflexivity].
Defined.
